(** * The drive-by-wire node (ros/src/twist_controller/dbw_node.py)

    A shallow embedding of [DBWNode]: the cached inputs written by the
    subscriber callbacks, the body of the control loop, the cross-track
    error computation and the actuation publisher.

    Python floats are idealised as real numbers: [np.arctan2], [np.cos],
    [np.sin], [np.dot], [np.polyfit] and [np.polyval] are modelled by the
    exact functions they approximate.  Exceptions are explicit results;
    publications and the call of [rate.sleep()] are events of a trace.
    The callbacks run on subscriber threads, so an execution is an
    interleaving of their assignments with iterations of the loop. *)

From Stdlib Require Import Reals Lra Lia List Bool Arith.
Import ListNotations.
Local Open Scope R_scope.

(** ** Python results *)

Inductive exn : Type :=
| IndexError
| LinAlgError.

Inductive result (A : Type) : Type :=
| Ok (a : A)
| Raise (e : exn).
Arguments Ok {A} a.
Arguments Raise {A} e.

Definition bind {A B : Type} (r : result A) (k : A -> result B) : result B :=
  match r with
  | Ok a => k a
  | Raise e => Raise e
  end.

Notation "x <- r ;; k" := (bind r (fun x => k))
  (at level 61, r at next level, right associativity).

(** [None not in (...)] tests each component for being [None]. *)
Definition is_None {A : Type} (o : option A) : bool :=
  match o with
  | None => true
  | Some _ => false
  end.

(** ** The numpy functions used by [calculate_cte] *)

Module Numpy.

Definition vec : Type := (R * R)%type.
Definition mat : Type := (vec * vec)%type.

(** [a - origin] on a row of a two-column array. *)
Definition vsub (a origin : vec) : vec :=
  (fst a - fst origin, snd a - snd origin).

(** [np.dot(v, m)]: the row vector [v] times the 2x2 matrix [m] (given by
    its rows). *)
Definition dot (v : vec) (m : mat) : vec :=
  (fst v * fst (fst m) + snd v * fst (snd m),
   fst v * snd (fst m) + snd v * snd (snd m)).

(** [np.arctan2(y, x)], the angle of the point (x, y) in (-PI, PI], with
    the value 0 at the origin. *)
Definition arctan2 (y x : R) : R :=
  if Rlt_dec 0 x then atan (y / x)
  else if Rlt_dec x 0 then
    (if Rle_dec 0 y then atan (y / x) + PI else atan (y / x) - PI)
  else if Rlt_dec 0 y then PI / 2
  else if Rlt_dec y 0 then - (PI / 2)
  else 0.

(** [np.polyval(p, x)]: Horner evaluation, highest coefficient first. *)
Definition polyval (p : list R) (x : R) : R :=
  fold_left (fun y pv => y * x + pv) p 0.

Definition sum (l : list R) : R := fold_right Rplus 0 l.

(** Sums of x^k and of x^k * y over the sample. *)
Definition moment (k : nat) (xs : list R) : R :=
  sum (map (fun x => x ^ k) xs).

Definition cross_moment (k : nat) (xs ys : list R) : R :=
  sum (map (fun p => fst p ^ k * snd p) (combine xs ys)).

Definition det3 (a b c d e f g h i : R) : R :=
  a * (e * i - f * h) - b * (d * i - f * g) + c * (d * h - e * g).

(** Determinant of the normal matrix of the degree-2 fit. *)
Definition normal_det (xs : list R) : R :=
  det3 (moment 4 xs) (moment 3 xs) (moment 2 xs)
       (moment 3 xs) (moment 2 xs) (moment 1 xs)
       (moment 2 xs) (moment 1 xs) (moment 0 xs).


Section Polyfit.

(** What [np.polyfit] does when the least-squares problem is rank
    deficient (fewer than three distinct abscissas) is numpy's business:
    it warns and returns a minimum-norm solution, or raises when the
    scaled matrix is not finite.  That behaviour is a parameter. *)
Variable rank_deficient_fit : list R -> list R -> result (list R).

(** [np.polyfit(x, y, deg=2)]: the coefficients [c2; c1; c0] of the
    least-squares parabola, the solution of the normal equations. *)
Definition polyfit (xs ys : list R) : result (list R) :=
  let s0 := moment 0 xs in
  let s1 := moment 1 xs in
  let s2 := moment 2 xs in
  let s3 := moment 3 xs in
  let s4 := moment 4 xs in
  let t0 := cross_moment 0 xs ys in
  let t1 := cross_moment 1 xs ys in
  let t2 := cross_moment 2 xs ys in
  let d := normal_det xs in
  if Req_dec_T d 0 then rank_deficient_fit xs ys
  else Ok [ det3 t2 s3 s2 t1 s2 s1 t0 s1 s0 / d;
            det3 s4 t2 s2 s3 t1 s1 s2 t0 s0 / d;
            det3 s4 s3 t2 s3 s2 t1 s2 s1 t0 / d ].

End Polyfit.

End Numpy.

(** ** Messages *)

(** std_msgs/Bool *)
Record BoolMsg : Type := { data : bool }.

(** geometry_msgs/TwistStamped: the two fields the node reads. *)
Record TwistStamped : Type :=
  { twist_linear_x : R;
    twist_angular_z : R }.

(** geometry_msgs/PoseStamped: [msg.pose.position.x], [.y]. *)
Record PoseStamped : Type :=
  { pose_position_x : R;
    pose_position_y : R }.

(** styx_msgs/Waypoint: [waypoint.pose.pose.position.x], [.y]. *)
Record Waypoint : Type :=
  { waypoint_x : R;
    waypoint_y : R }.

(** styx_msgs/Lane *)
Record Lane : Type := { lane_waypoints : list Waypoint }.

Inductive pedal_cmd_type : Type :=
| CMD_NONE
| CMD_PEDAL
| CMD_PERCENT
| CMD_TORQUE.

Record ThrottleCmd : Type :=
  { throttle_enable : bool;
    throttle_pedal_cmd_type : pedal_cmd_type;
    throttle_pedal_cmd : R }.

Record SteeringCmd : Type :=
  { steering_enable : bool;
    steering_wheel_angle_cmd : R }.

Record BrakeCmd : Type :=
  { brake_enable : bool;
    brake_pedal_cmd_type : pedal_cmd_type;
    brake_pedal_cmd : R }.

(** What one loop iteration does to the outside world, in order. *)
Inductive event : Type :=
| CtePub (cte : R)
| ThrottlePub (tcmd : ThrottleCmd)
| SteerPub (scmd : SteeringCmd)
| BrakePub (bcmd : BrakeCmd)
| RateSleep.

Definition is_actuation (e : event) : bool :=
  match e with
  | ThrottlePub _ | SteerPub _ | BrakePub _ => true
  | CtePub _ | RateSleep => false
  end.

(** The events an iteration has emitted when it ends: its output when it
    returns, nothing when it raises ([calculate_cte], the only statement
    that raises, runs before the first publication). *)
Definition emitted {A : Type} (r : result (list event * A)) : list event :=
  match r with
  | Ok (out, _) => out
  | Raise _ => []
  end.

(** ** calculate_cte *)

Section CTE.

Import Numpy.

Variable rank_deficient_fit : list R -> list R -> result (list R).

Definition position (waypoint : Waypoint) : vec :=
  (waypoint_x waypoint, waypoint_y waypoint).

Definition offset : nat := 10.

(** [positions[i]] raises [IndexError] out of range. *)
Definition index {A : Type} (l : list A) (i : nat) : result A :=
  match nth_error l i with
  | Some a => Ok a
  | None => Raise IndexError
  end.

Definition rotation_of (angle : R) : mat :=
  ((cos angle, - sin angle),
   (sin angle, cos angle)).

Definition calculate_cte (waypoints : list Waypoint) (current_position : vec)
  : result R :=
  let positions := map position waypoints in
  origin <- index positions 0 ;;
  let positions := map (fun p => vsub p origin) positions in
  p_offset <- index positions offset ;;
  let angle := arctan2 (snd p_offset) (fst p_offset) in
  let rotation := rotation_of angle in
  let positions := map (fun p => dot p rotation) positions in
  let translated := vsub current_position origin in
  let rotated := dot translated rotation in
  coefficients <- polyfit rank_deficient_fit
                    (map fst positions) (map snd positions) ;;
  let expected := polyval coefficients (fst rotated) in
  let actual := snd rotated in
  Ok (actual - expected).

End CTE.

(** Coordinates in the frame of a path: the heading of the offset of point
    [q] from the first point [o], and a point translated by [o] and
    multiplied by the rotation matrix of that heading. *)
Definition heading_of (o q : Numpy.vec) : R :=
  Numpy.arctan2 (snd (Numpy.vsub q o)) (fst (Numpy.vsub q o)).

Definition in_frame (o q p : Numpy.vec) : Numpy.vec :=
  Numpy.dot (Numpy.vsub p o) (rotation_of (heading_of o q)).

(** ** The node *)

Section Node.

Import Numpy.

(** [twist_controller.Controller] lives in another module: its state and
    its [control] method are parameters. *)
Variable CtrlState : Type.
Variable control :
  CtrlState -> R -> R -> R -> R -> (R * R * R) * CtrlState.
Variable rank_deficient_fit : list R -> list R -> result (list R).

(** The attributes set at the end of [__init__]; [None] until a callback
    assigns them. *)
Record DBWNode : Type :=
  { current_velocity : option R;
    current_ang_velocity : option R;
    dbw_enabled : option BoolMsg;
    linear_velocity : option R;
    angular_velocity : option R;
    current_position : option vec;
    waypoints : option (list Waypoint);
    controller : CtrlState }.

Definition init (c : CtrlState) : DBWNode :=
  {| current_velocity := None;
     current_ang_velocity := None;
     dbw_enabled := None;
     linear_velocity := None;
     angular_velocity := None;
     current_position := None;
     waypoints := None;
     controller := c |}.

(** Single attribute assignments, the statements of the callbacks. *)
Inductive assignment : Type :=
| SetDbwEnabled (v : BoolMsg)
| SetLinearVelocity (v : R)
| SetAngularVelocity (v : R)
| SetCurrentVelocity (v : R)
| SetCurrentPosition (v : vec)
| SetWaypoints (v : list Waypoint).

Definition assign (a : assignment) (s : DBWNode) : DBWNode :=
  match a with
  | SetDbwEnabled v =>
      {| current_velocity := current_velocity s;
         current_ang_velocity := current_ang_velocity s;
         dbw_enabled := Some v;
         linear_velocity := linear_velocity s;
         angular_velocity := angular_velocity s;
         current_position := current_position s;
         waypoints := waypoints s;
         controller := controller s |}
  | SetLinearVelocity v =>
      {| current_velocity := current_velocity s;
         current_ang_velocity := current_ang_velocity s;
         dbw_enabled := dbw_enabled s;
         linear_velocity := Some v;
         angular_velocity := angular_velocity s;
         current_position := current_position s;
         waypoints := waypoints s;
         controller := controller s |}
  | SetAngularVelocity v =>
      {| current_velocity := current_velocity s;
         current_ang_velocity := current_ang_velocity s;
         dbw_enabled := dbw_enabled s;
         linear_velocity := linear_velocity s;
         angular_velocity := Some v;
         current_position := current_position s;
         waypoints := waypoints s;
         controller := controller s |}
  | SetCurrentVelocity v =>
      {| current_velocity := Some v;
         current_ang_velocity := current_ang_velocity s;
         dbw_enabled := dbw_enabled s;
         linear_velocity := linear_velocity s;
         angular_velocity := angular_velocity s;
         current_position := current_position s;
         waypoints := waypoints s;
         controller := controller s |}
  | SetCurrentPosition v =>
      {| current_velocity := current_velocity s;
         current_ang_velocity := current_ang_velocity s;
         dbw_enabled := dbw_enabled s;
         linear_velocity := linear_velocity s;
         angular_velocity := angular_velocity s;
         current_position := Some v;
         waypoints := waypoints s;
         controller := controller s |}
  | SetWaypoints v =>
      {| current_velocity := current_velocity s;
         current_ang_velocity := current_ang_velocity s;
         dbw_enabled := dbw_enabled s;
         linear_velocity := linear_velocity s;
         angular_velocity := angular_velocity s;
         current_position := current_position s;
         waypoints := Some v;
         controller := controller s |}
  end.

Definition set_controller (c : CtrlState) (s : DBWNode) : DBWNode :=
  {| current_velocity := current_velocity s;
     current_ang_velocity := current_ang_velocity s;
     dbw_enabled := dbw_enabled s;
     linear_velocity := linear_velocity s;
     angular_velocity := angular_velocity s;
     current_position := current_position s;
     waypoints := waypoints s;
     controller := c |}.

(** The callbacks, each the sequence of its assignments.
    [dbw_enabled_cb] stores the std_msgs/Bool message it receives, not
    the [data] field of that message. *)
Definition dbw_enabled_cb (msg : BoolMsg) : list assignment :=
  [SetDbwEnabled msg].

Definition twist_cb (msg : TwistStamped) : list assignment :=
  [SetLinearVelocity (twist_linear_x msg);
   SetAngularVelocity (twist_angular_z msg)].

Definition velocity_cb (msg : TwistStamped) : list assignment :=
  [SetCurrentVelocity (twist_linear_x msg)].

Definition pose_cb (msg : PoseStamped) : list assignment :=
  [SetCurrentPosition (pose_position_x msg, pose_position_y msg)].

Definition waypoints_cb (msg : Lane) : list assignment :=
  [SetWaypoints (lane_waypoints msg)].

Definition exec (cb : list assignment) (s : DBWNode) : DBWNode :=
  fold_left (fun s a => assign a s) cb s.

(** [publish(throttle, brake, steer)] *)
Definition publish (throttle brake steer : R) : list event :=
  [ ThrottlePub {| throttle_enable := true;
                   throttle_pedal_cmd_type := CMD_PERCENT;
                   throttle_pedal_cmd := throttle |};
    SteerPub {| steering_enable := true;
                steering_wheel_angle_cmd := steer |};
    BrakePub {| brake_enable := true;
                brake_pedal_cmd_type := CMD_TORQUE;
                brake_pedal_cmd := brake |} ].

(** Truth value of [self.dbw_enabled] in the loop's test.  The attribute
    holds [None] or the message object the callback stored; a message
    object defines neither [__nonzero__] nor [__len__], so it is true
    whatever its [data] field holds. *)
Definition truthy (o : option BoolMsg) : bool := negb (is_None o).

(** The loop's test:
    [self.dbw_enabled and None not in (current_velocity, linear_velocity,
    angular_velocity)]. *)
Definition gate (s : DBWNode) : bool :=
  truthy (dbw_enabled s)
  && negb (is_None (current_velocity s)
           || is_None (linear_velocity s)
           || is_None (angular_velocity s)).

(** The test [None not in (self.current_position, self.waypoints)]. *)
Definition cte_inputs_present (s : DBWNode) : bool :=
  negb (is_None (current_position s) || is_None (waypoints s)).

(** Lines 104 to 107: the CTE handed to the controller, with the
    diagnostic published for it.  The inner [match] reads the two
    attributes the test has found present. *)
Definition cte_step (s : DBWNode) : result (R * list event) :=
  if cte_inputs_present s then
    match current_position s, waypoints s with
    | Some p, Some w =>
        cte <- calculate_cte rank_deficient_fit w p ;;
        Ok (cte, [CtePub cte])
    | _, _ => Ok (0, [])
    end
  else Ok (0, []).

(** One iteration of the [while] loop of [loop]: the events it emits and
    the node afterwards, or the exception that leaves the loop.  The
    inner [match] reads the three floats the test has found present. *)
Definition loop_body (s : DBWNode) : result (list event * DBWNode) :=
  if gate s then
    match current_velocity s, linear_velocity s, angular_velocity s with
    | Some cv, Some lv, Some av =>
        c <- cte_step s ;;
        let '(cte, diag) := c in
        let '((throttle, brake, steering), ctrl) :=
          control (controller s) cv lv av cte in
        Ok (diag ++ publish throttle brake steering ++ [RateSleep],
            set_controller ctrl s)
    | _, _, _ => Ok ([], s)
    end
  else Ok ([], s).

(** An execution interleaves callback assignments, which run on the
    subscriber threads, with iterations of the loop. *)
Inductive step : Type :=
| Assign (a : assignment)
| LoopIteration.

Definition callback (cb : list assignment) : list step := map Assign cb.

(** The output of every completed iteration, in order, and the node at
    the end or the exception that ended the loop. *)
Fixpoint run (sched : list step) (s : DBWNode)
  : list (list event) * result DBWNode :=
  match sched with
  | [] => ([], Ok s)
  | Assign a :: rest => run rest (assign a s)
  | LoopIteration :: rest =>
      match loop_body s with
      | Ok (out, s') =>
          let (outs, r) := run rest s' in (out :: outs, r)
      | Raise e => ([], Raise e)
      end
  end.

End Node.

Arguments current_velocity {CtrlState} d.
Arguments current_ang_velocity {CtrlState} d.
Arguments dbw_enabled {CtrlState} d.
Arguments linear_velocity {CtrlState} d.
Arguments angular_velocity {CtrlState} d.
Arguments current_position {CtrlState} d.
Arguments waypoints {CtrlState} d.
Arguments controller {CtrlState} d.
Arguments init {CtrlState} c.
Arguments assign {CtrlState} a s.
Arguments exec {CtrlState} cb s.
Arguments gate {CtrlState} s.
Arguments cte_inputs_present {CtrlState} s.
Arguments cte_step {CtrlState} rank_deficient_fit s.
Arguments loop_body {CtrlState} control rank_deficient_fit s.
Arguments run {CtrlState} control rank_deficient_fit sched s.
Arguments set_controller {CtrlState} c s.

(** ** The CTE estimator, step by step as the specification words it *)

Section Estimator.

Import Numpy.

Variable rank_deficient_fit : list R -> list R -> result (list R).




(** Value at [x] of the parabola with coefficients [c2; c1; c0]. *)
Definition parabola (c2 c1 c0 x : R) : R := c2 * x ^ 2 + c1 * x + c0.




End Estimator.

(** ** Rigid motions of the plane *)

(** Rotation by [phi] followed by the translation by (tx, ty). *)
Definition rigid (phi tx ty : R) (p : Numpy.vec) : Numpy.vec :=
  (fst p * cos phi - snd p * sin phi + tx,
   fst p * sin phi + snd p * cos phi + ty).

Definition waypoint_at (x y : R) : Waypoint :=
  {| waypoint_x := x; waypoint_y := y |}.

Definition move_waypoint (phi tx ty : R) (w : Waypoint) : Waypoint :=
  waypoint_at (fst (rigid phi tx ty (position w)))
              (snd (rigid phi tx ty (position w))).

(** ** Sample inputs *)

(** The straight path (0,0), (1,0), ..., (20,0). *)
Definition straight_path : list Waypoint :=
  map (fun i => waypoint_at (IZR (Z.of_nat i)) 0) (seq 0 21).

(** Eleven points on the x axis whose last one is back at the first. *)
Definition returning_path : list Waypoint :=
  map (fun i => waypoint_at (IZR (Z.of_nat i)) 0) (seq 0 10)
  ++ [waypoint_at 0 0].

Definition short_path : list Waypoint :=
  [waypoint_at 0 0; waypoint_at 1 0; waypoint_at 2 0].

(** A rank-deficient fit that raises. *)
Definition failing_fit : list R -> list R -> result (list R) :=
  fun _ _ => Raise LinAlgError.

(** A stateless controller that returns its desired linear velocity as
    throttle, its desired angular velocity as brake and the CTE as
    steering. *)
Definition echo_control
  : unit -> R -> R -> R -> R -> (R * R * R) * unit :=
  fun _ _ linear angular cte => ((linear, angular, cte), tt).

Definition twist_msg (linear angular : R) : TwistStamped :=
  {| twist_linear_x := linear; twist_angular_z := angular |}.

(** A node that has received the enable message [enable], a current
    velocity and a motion request, and nothing else. *)
Definition node_without_path (enable : bool) : DBWNode unit :=
  exec (dbw_enabled_cb {| data := enable |}
        ++ velocity_cb (twist_msg 3 0)
        ++ twist_cb (twist_msg 4 (1 / 2)))
       (init tt).

(** The same node after a pose and a path have arrived. *)
Definition node_with_path (w : list Waypoint) (x y : R) : DBWNode unit :=
  exec (pose_cb {| pose_position_x := x; pose_position_y := y |}
        ++ waypoints_cb {| lane_waypoints := w |})
       (node_without_path true).

(** A node that has received an enable message and the velocities 0. *)
Definition node_at_rest : DBWNode unit :=
  exec (dbw_enabled_cb {| data := true |}
        ++ velocity_cb (twist_msg 0 0)
        ++ twist_cb (twist_msg 0 0))
       (init tt).

(** The node at rest after a pose and a path have arrived. *)
Definition node_at_rest_with_path (w : list Waypoint) (x y : R)
  : DBWNode unit :=
  exec (pose_cb {| pose_position_x := x; pose_position_y := y |}
        ++ waypoints_cb {| lane_waypoints := w |})
       node_at_rest.

(** ** The attributes the callbacks write *)

Inductive attribute : Type :=
| AttrDbwEnabled
| AttrLinearVelocity
| AttrAngularVelocity
| AttrCurrentVelocity
| AttrCurrentPosition
| AttrWaypoints.

(** The attribute an assignment writes. *)
Definition target (a : assignment) : attribute :=
  match a with
  | SetDbwEnabled _ => AttrDbwEnabled
  | SetLinearVelocity _ => AttrLinearVelocity
  | SetAngularVelocity _ => AttrAngularVelocity
  | SetCurrentVelocity _ => AttrCurrentVelocity
  | SetCurrentPosition _ => AttrCurrentPosition
  | SetWaypoints _ => AttrWaypoints
  end.

(** The attribute still holds the [None] of [__init__]. *)
Definition unset {CtrlState : Type} (x : attribute) (s : DBWNode CtrlState)
  : bool :=
  match x with
  | AttrDbwEnabled => is_None (dbw_enabled s)
  | AttrLinearVelocity => is_None (linear_velocity s)
  | AttrAngularVelocity => is_None (angular_velocity s)
  | AttrCurrentVelocity => is_None (current_velocity s)
  | AttrCurrentPosition => is_None (current_position s)
  | AttrWaypoints => is_None (waypoints s)
  end.

(** The attributes the loop's test looks at. *)
Definition gate_reads (x : attribute) : bool :=
  match x with
  | AttrCurrentPosition | AttrWaypoints => false
  | _ => true
  end.

(** The waypoint moved by the vector (tx, ty). *)
Definition shift_waypoint (tx ty : R) (w : Waypoint) : Waypoint :=
  waypoint_at (waypoint_x w + tx) (waypoint_y w + ty).

(** The point at the abscissa [t] of the line through [o] with the
    direction [d]. *)
Definition on_line (o d : Numpy.vec) (t : R) : Waypoint :=
  waypoint_at (fst o + t * fst d) (snd o + t * snd d).

(** Eleven abscissas 0, 1, ..., 10. *)
Definition unit_abscissas : list R :=
  map (fun i => IZR (Z.of_nat i)) (seq 0 11).

(** * Properties *)

(** ** Angles *)

Section Trig.
Import Numpy.

Lemma norm_pos (x y : R) : (x, y) <> (0, 0) -> 0 < sqrt (x * x + y * y).
Proof.
  intros H. apply sqrt_lt_R0.
  destruct (Req_dec_T x 0) as [-> | Hx].
  - destruct (Req_dec_T y 0) as [-> | Hy]; [congruence | nra].
  - nra.
Qed.

Lemma sqrt_one_plus_sq (x y : R) :
  x <> 0 -> sqrt (1 + Rsqr (y / x)) = sqrt (x * x + y * y) / Rabs x.
Proof.
  intros Hx.
  assert (Hr : 0 < sqrt (x * x + y * y)) by (apply norm_pos; congruence).
  assert (Ha : 0 < Rabs x) by (apply Rabs_pos_lt; exact Hx).
  assert (Hq : 0 <= sqrt (x * x + y * y) / Rabs x).
  { apply Rlt_le, Rdiv_lt_0_compat; assumption. }
  rewrite <- (sqrt_square _ Hq). f_equal.
  unfold Rsqr.
  assert (Hs : sqrt (x * x + y * y) * sqrt (x * x + y * y) = x * x + y * y)
    by (apply sqrt_sqrt; nra).
  assert (Hab : Rabs x * Rabs x = x * x).
  { unfold Rabs. destruct (Rcase_abs x); ring. }
  set (r := sqrt (x * x + y * y)) in *. set (a := Rabs x) in *.
  replace (r / a * (r / a)) with ((r * r) / (a * a)) by (field; lra).
  rewrite Hs, Hab. field. exact Hx.
Qed.

Lemma cos_arctan2 (x y : R) :
  (x, y) <> (0, 0) -> cos (arctan2 y x) = x / sqrt (x * x + y * y).
Proof.
  intros H. pose proof (norm_pos x y H) as Hr. unfold arctan2.
  destruct (Rlt_dec 0 x) as [Hx | Hx].
  - rewrite cos_atan, sqrt_one_plus_sq by lra.
    rewrite Rabs_right by lra. field. lra.
  - destruct (Rlt_dec x 0) as [Hx' | Hx'].
    + assert (Hc : - cos (atan (y / x)) = x / sqrt (x * x + y * y)).
      { rewrite cos_atan, sqrt_one_plus_sq by lra.
        rewrite Rabs_left by lra. field. lra. }
      destruct (Rle_dec 0 y).
      * rewrite neg_cos. exact Hc.
      * unfold Rminus. rewrite <- (cos_neg (atan (y / x) + - PI)).
        replace (- (atan (y / x) + - PI)) with (- atan (y / x) + PI) by ring.
        rewrite neg_cos, cos_neg. exact Hc.
    + assert (x = 0) by lra. subst x.
      unfold Rdiv. rewrite Rmult_0_l.
      destruct (Rlt_dec 0 y); [apply cos_PI2 | ].
      destruct (Rlt_dec y 0); [rewrite cos_neg; apply cos_PI2 | ].
      exfalso. apply H. f_equal. lra.
Qed.

Lemma sin_arctan2 (x y : R) :
  (x, y) <> (0, 0) -> sin (arctan2 y x) = y / sqrt (x * x + y * y).
Proof.
  intros H. pose proof (norm_pos x y H) as Hr. unfold arctan2.
  destruct (Rlt_dec 0 x) as [Hx | Hx].
  - rewrite sin_atan, sqrt_one_plus_sq by lra.
    rewrite Rabs_right by lra. field. lra.
  - destruct (Rlt_dec x 0) as [Hx' | Hx'].
    + assert (Hc : - sin (atan (y / x)) = y / sqrt (x * x + y * y)).
      { rewrite sin_atan, sqrt_one_plus_sq by lra.
        rewrite Rabs_left by lra. field. lra. }
      destruct (Rle_dec 0 y).
      * rewrite neg_sin. exact Hc.
      * replace (atan (y / x) - PI) with (- (- atan (y / x) + PI)) by ring.
        rewrite sin_neg, neg_sin, sin_neg. rewrite <- Hc. ring.
    + assert (x = 0) by lra. subst x.
      replace (0 * 0 + y * y) with (y * y) by ring.
      destruct (Rlt_dec 0 y) as [Hy | Hy].
      { rewrite sin_PI2, sqrt_square by lra. field. lra. }
      destruct (Rlt_dec y 0) as [Hy' | Hy'].
      { rewrite sin_neg, sin_PI2.
        replace (y * y) with ((- y) * (- y)) by ring.
        rewrite sqrt_square by lra. field. lra. }
      exfalso. apply H. f_equal. lra.
Qed.

Lemma arctan2_origin : arctan2 0 0 = 0.
Proof.
  unfold arctan2.
  repeat match goal with
         | |- context [Rlt_dec ?a ?b] => destruct (Rlt_dec a b); try lra
         end.
Qed.

Lemma arctan2_pos_axis (x : R) : 0 < x -> arctan2 0 x = 0.
Proof.
  intros Hx. unfold arctan2.
  destruct (Rlt_dec 0 x); [ | lra].
  unfold Rdiv. rewrite Rmult_0_l. apply atan_0.
Qed.

End Trig.

Section LeastSquares.
Import Numpy.

Lemma combine_fst_snd {A B : Type} (l : list (A * B)) :
  combine (map fst l) (map snd l) = l.
Proof.
  induction l as [| [a b] l IH]; simpl; [reflexivity | now rewrite IH].
Qed.

Lemma polyval3 (a b c x : R) : polyval [a; b; c] x = a * x ^ 2 + b * x + c.
Proof. unfold polyval. simpl. ring. Qed.



Section Fit.
Variable rank_deficient_fit : list R -> list R -> result (list R).


End Fit.
End LeastSquares.

(** ** The cross-track error *)

Section CrossTrackError.

Import Numpy.

Variable rank_deficient_fit : list R -> list R -> result (list R).

Local Abbreviation cte := (calculate_cte rank_deficient_fit).

Lemma index_short {A : Type} (l : list A) (i : nat) :
  (length l <= i)%nat -> index l i = Raise IndexError.
Proof.
  intros H. unfold index.
  now rewrite (proj2 (nth_error_None l i) H).
Qed.

Lemma index_some {A : Type} (l : list A) (i : nat) (a : A) :
  nth_error l i = Some a -> index l i = Ok a.
Proof. intros H. unfold index. now rewrite H. Qed.

(** [calculate_cte] on a path whose points 0 and 10 exist. *)
Lemma calculate_cte_frame (ws : list Waypoint) (pose : vec) (w0 w10 : Waypoint) :
  nth_error ws 0 = Some w0 ->
  nth_error ws offset = Some w10 ->
  let o := position w0 in
  let q := position w10 in
  let pts := map (fun w => in_frame o q (position w)) ws in
  cte ws pose =
  (coefficients <- polyfit rank_deficient_fit (map fst pts) (map snd pts) ;;
   Ok (snd (in_frame o q pose)
       - polyval coefficients (fst (in_frame o q pose)))).
Proof.
  intros H0 H10 o q pts. unfold calculate_cte.
  rewrite (index_some _ 0 o) by (now apply map_nth_error).
  cbn [bind].
  rewrite (index_some _ offset (vsub q o)).
  2:{ rewrite map_map. now apply (map_nth_error (fun w => vsub (position w) o)). }
  cbn [bind]. subst pts. rewrite !map_map. reflexivity.
Qed.

(** With fewer than 11 points the lookup of point 0 or of point 10
    fails. *)
Lemma calculate_cte_short (ws : list Waypoint) (pose : vec) :
  (length ws < 11)%nat -> cte ws pose = Raise IndexError.
Proof.
  intros H. unfold calculate_cte.
  destruct ws as [| w0 ws']; [reflexivity | ].
  rewrite (index_some _ 0 (position w0)) by reflexivity.
  cbn [bind]. rewrite index_short; [reflexivity | ].
  rewrite !length_map. unfold offset. lia.
Qed.

Lemma cross_moment_flat (k : nat) (xs ys : list R) :
  Forall (fun y => y = 0) ys -> cross_moment k xs ys = 0.
Proof.
  intros H. revert xs. unfold cross_moment, sum.
  induction H as [| y ys Hy _ IH]; intros [| x xs]; cbn [combine map fold_right];
    try reflexivity.
  rewrite IH. cbn [fst snd]. subst y. ring.
Qed.

(** A sample that lies on the x axis is fitted by the zero parabola. *)
Lemma polyfit_flat (xs ys : list R) :
  Forall (fun y => y = 0) ys ->
  normal_det xs <> 0 ->
  polyfit rank_deficient_fit xs ys = Ok [0; 0; 0].
Proof.
  intros Hy Hd. unfold polyfit.
  destruct (Req_dec_T (normal_det xs) 0) as [E | _]; [contradiction | ].
  rewrite !(cross_moment_flat _ xs ys Hy).
  do 2 f_equal; [ | f_equal; [ | f_equal]]; unfold det3; field; exact Hd.
Qed.

End CrossTrackError.

Section FrameLemmas.

Import Numpy.

Lemma vsub_nonzero (o q : vec) : q <> o -> vsub q o <> (0, 0).
Proof.
  destruct o as [ox oy], q as [qx qy]. unfold vsub. cbn [fst snd].
  intros Hne E. inversion E. apply Hne. f_equal; lra.
Qed.

(** In the path frame a point has the coordinates given by the scalar
    and the cross product of its offset with the unit heading vector. *)
Lemma in_frame_polar (o q p : vec) :
  q <> o ->
  let u := vsub p o in
  let d := vsub q o in
  let r := sqrt (fst d * fst d + snd d * snd d) in
  in_frame o q p =
  ((fst u * fst d + snd u * snd d) / r, (snd u * fst d - fst u * snd d) / r).
Proof.
  intros Hne u d r.
  pose proof (vsub_nonzero o q Hne) as Hd. fold d in Hd.
  assert (Hd' : (fst d, snd d) <> (0, 0)) by (now destruct d).
  pose proof (norm_pos _ _ Hd') as Hr. fold r in Hr.
  unfold in_frame, heading_of, rotation_of, dot. fold d u. cbn [fst snd].
  rewrite (cos_arctan2 _ _ Hd'), (sin_arctan2 _ _ Hd'). fold r.
  f_equal; field; lra.
Qed.

Lemma rigid_injective (phi tx ty : R) (p q : vec) :
  rigid phi tx ty p = rigid phi tx ty q -> p = q.
Proof.
  destruct p as [px py], q as [qx qy]. unfold rigid. cbn [fst snd].
  intros E. inversion E as [[E1 E2]].
  pose proof (sin2_cos2 phi) as H. unfold Rsqr in H.
  set (c := cos phi) in *. set (s := sin phi) in *.
  assert (A : (px - qx) * c - (py - qy) * s = 0) by lra.
  assert (B : (px - qx) * s + (py - qy) * c = 0) by lra.
  assert (Hx : (px - qx) * (s * s + c * c) = 0).
  { replace ((px - qx) * (s * s + c * c))
      with (c * ((px - qx) * c - (py - qy) * s)
            + s * ((px - qx) * s + (py - qy) * c)) by ring.
    rewrite A, B. ring. }
  assert (Hy : (py - qy) * (s * s + c * c) = 0).
  { replace ((py - qy) * (s * s + c * c))
      with (c * ((px - qx) * s + (py - qy) * c)
            - s * ((px - qx) * c - (py - qy) * s)) by ring.
    rewrite A, B. ring. }
  rewrite H in Hx, Hy. f_equal; lra.
Qed.

(** The path frame moves with the path: a rigid motion of path and point
    leaves the coordinates in the frame unchanged. *)
Lemma in_frame_rigid (phi tx ty : R) (o q p : vec) :
  q <> o ->
  in_frame (rigid phi tx ty o) (rigid phi tx ty q) (rigid phi tx ty p)
  = in_frame o q p.
Proof.
  intros Hne.
  assert (Hne' : rigid phi tx ty q <> rigid phi tx ty o).
  { intros E. apply Hne. eapply rigid_injective. exact E. }
  rewrite (in_frame_polar _ _ _ Hne'), (in_frame_polar _ _ _ Hne).
  cbv zeta.
  destruct o as [ox oy], q as [qx qy], p as [px py].
  unfold rigid, vsub. cbn [fst snd].
  pose proof (sin2_cos2 phi) as H. unfold Rsqr in H.
  set (c := cos phi) in *. set (s := sin phi) in *. clearbody c s.
  set (x := qx - ox). set (y := qy - oy).
  set (ux := px - ox). set (uy := py - oy).
  replace (qx * c - qy * s + tx - (ox * c - oy * s + tx)) with (x * c - y * s)
    by (unfold x, y; ring).
  replace (qx * s + qy * c + ty - (ox * s + oy * c + ty)) with (x * s + y * c)
    by (unfold x, y; ring).
  replace (px * c - py * s + tx - (ox * c - oy * s + tx)) with (ux * c - uy * s)
    by (unfold ux, uy; ring).
  replace (px * s + py * c + ty - (ox * s + oy * c + ty)) with (ux * s + uy * c)
    by (unfold ux, uy; ring).
  replace ((x * c - y * s) * (x * c - y * s) + (x * s + y * c) * (x * s + y * c))
    with ((x * x + y * y) * (s * s + c * c)) by ring.
  replace ((ux * c - uy * s) * (x * c - y * s) + (ux * s + uy * c) * (x * s + y * c))
    with ((ux * x + uy * y) * (s * s + c * c)) by ring.
  replace ((ux * s + uy * c) * (x * c - y * s) - (ux * c - uy * s) * (x * s + y * c))
    with ((uy * x - ux * y) * (s * s + c * c)) by ring.
  rewrite H, !Rmult_1_r. reflexivity.
Qed.

End FrameLemmas.

Section CrossTrackErrorValues.

Import Numpy.

Variable rank_deficient_fit : list R -> list R -> result (list R).

Lemma arctan2_nonneg_axis (x y : R) : y = 0 -> 0 <= x -> arctan2 y x = 0.
Proof.
  intros -> Hx.
  destruct (Rlt_dec 0 x) as [Hpos | Hnot].
  - now apply arctan2_pos_axis.
  - replace x with 0 by lra. apply arctan2_origin.
Qed.

(** A path on a line parallel to the x axis whose point 10 is not behind
    point 0: the CTE is the ordinate of the pose relative to the line. *)
Lemma calculate_cte_level_path (ws : list Waypoint) (pose : vec)
      (w0 w10 : Waypoint) :
  nth_error ws 0 = Some w0 ->
  nth_error ws offset = Some w10 ->
  Forall (fun w => waypoint_y w = waypoint_y w0) ws ->
  waypoint_x w0 <= waypoint_x w10 ->
  normal_det (map (fun w => waypoint_x w - waypoint_x w0) ws) <> 0 ->
  calculate_cte rank_deficient_fit ws pose = Ok (snd pose - waypoint_y w0).
Proof.
  intros H0 H10 Hlevel Hahead Hdet.
  rewrite (calculate_cte_frame _ ws pose w0 w10 H0 H10). cbv zeta.
  assert (Hy10 : waypoint_y w10 = waypoint_y w0).
  { apply nth_error_In in H10.
    exact (proj1 (Forall_forall _ ws) Hlevel w10 H10). }
  assert (Hframe : forall p,
             in_frame (position w0) (position w10) p
             = (fst p - waypoint_x w0, snd p - waypoint_y w0)).
  { intros p. unfold in_frame, heading_of, vsub, position. cbn [fst snd].
    rewrite arctan2_nonneg_axis by lra.
    unfold rotation_of, dot. rewrite cos_0, sin_0. cbn [fst snd].
    f_equal; ring. }
  rewrite polyfit_flat.
  - cbn [bind]. rewrite Hframe, polyval3. cbn [fst snd]. f_equal. ring.
  - rewrite map_map. apply Forall_forall. intros y Hy.
    apply in_map_iff in Hy as [w [<- Hw]].
    rewrite Hframe. cbn [fst snd position].
    rewrite (proj1 (Forall_forall _ ws) Hlevel w Hw). ring.
  - rewrite map_map.
    rewrite (map_ext _ (fun w => waypoint_x w - waypoint_x w0));
      [exact Hdet | ].
    intros w. rewrite Hframe. reflexivity.
Qed.

End CrossTrackErrorValues.

Section EstimatorClaims.

Import Numpy.

Variable rank_deficient_fit : list R -> list R -> result (list R).


Lemma long_path_points (ws : list Waypoint) :
  (11 <= length ws)%nat ->
  exists w0 w10, nth_error ws 0 = Some w0 /\ nth_error ws offset = Some w10.
Proof.
  intros H.
  destruct (nth_error ws 0) as [w0 |] eqn:E0.
  2:{ apply nth_error_None in E0. lia. }
  destruct (nth_error ws offset) as [w10 |] eqn:E10.
  2:{ apply nth_error_None in E10. unfold offset in E10. lia. }
  now exists w0, w10.
Qed.





(** C5, amended: a rigid motion applied to every path point and to the
    pose leaves the result of [calculate_cte] unchanged provided point 10
    of the path, when the path has one, differs from point 0. *)
Theorem C5_cte_invariant_under_rigid_motion
        (ws : list Waypoint) (pose : vec) (phi tx ty : R) :
  (forall w0 w10,
      nth_error ws 0 = Some w0 -> nth_error ws offset = Some w10 ->
      position w10 <> position w0) ->
  calculate_cte rank_deficient_fit
    (map (move_waypoint phi tx ty) ws) (rigid phi tx ty pose)
  = calculate_cte rank_deficient_fit ws pose.
Proof.
  intros Hne.
  destruct (Nat.lt_ge_cases (length ws) 11) as [Hshort | Hlong].
  - rewrite !calculate_cte_short; [reflexivity | exact Hshort | ].
    now rewrite length_map.
  - destruct (long_path_points ws Hlong) as (w0 & w10 & H0 & H10).
    specialize (Hne w0 w10 H0 H10).
    rewrite (calculate_cte_frame _ ws pose w0 w10 H0 H10).
    rewrite (calculate_cte_frame _ (map (move_waypoint phi tx ty) ws) _
               (move_waypoint phi tx ty w0) (move_waypoint phi tx ty w10)
               (map_nth_error _ _ _ H0) (map_nth_error _ _ _ H10)).
    cbv zeta.
    assert (Hpos : forall w, position (move_waypoint phi tx ty w)
                             = rigid phi tx ty (position w)).
    { intros w. reflexivity. }
    assert (Hpts :
             map (fun w => in_frame (rigid phi tx ty (position w0))
                             (rigid phi tx ty (position w10)) (position w))
                 (map (move_waypoint phi tx ty) ws)
             = map (fun w => in_frame (position w0) (position w10) (position w))
                   ws).
    { rewrite map_map. apply map_ext. intros w.
      rewrite Hpos. now apply in_frame_rigid. }
    rewrite !Hpos, Hpts, (in_frame_rigid phi tx ty _ _ pose Hne).
    reflexivity.
Qed.

End EstimatorClaims.

(** ** The sample paths *)

Ltac level_path_det :=
  unfold Numpy.normal_det, Numpy.det3, Numpy.moment, Numpy.sum;
  cbn -[IZR Rmult Rplus Rminus Ropp cos sin PI];
  rewrite ?cos_PI, ?sin_PI;
  let H := fresh in intros H; lra.

Lemma straight_path_cte (fit : list R -> list R -> result (list R))
      (pose : Numpy.vec) :
  calculate_cte fit straight_path pose = Ok (snd pose - 0).
Proof.
  apply (calculate_cte_level_path fit straight_path pose
           (waypoint_at 0 0) (waypoint_at 10 0)).
  - reflexivity.
  - reflexivity.
  - unfold straight_path. cbn [map seq]. repeat constructor.
  - cbn. lra.
  - unfold straight_path. level_path_det.
Qed.

(** C6: for the straight 21-point path (0,0), ..., (20,0) the CTE of the
    pose (5, 2) is 2 and the CTE of the pose (5, -2) is -2, in exact
    arithmetic. *)
Theorem C6_straight_path_example (fit : list R -> list R -> result (list R)) :
  calculate_cte fit straight_path (5, 2) = Ok 2
  /\ calculate_cte fit straight_path (5, -2) = Ok (-2).
Proof.
  split; rewrite straight_path_cte; cbn [snd]; f_equal; lra.
Qed.



Lemma C5_witness :
  (forall w0 w10,
      nth_error straight_path 0 = Some w0 ->
      nth_error straight_path offset = Some w10 ->
      position w10 <> position w0)
  /\ calculate_cte failing_fit
       (map (move_waypoint (PI / 2) 1 2) straight_path)
       (rigid (PI / 2) 1 2 (5, 2))
     = calculate_cte failing_fit straight_path (5, 2).
Proof.
  assert (H : forall w0 w10,
             nth_error straight_path 0 = Some w0 ->
             nth_error straight_path offset = Some w10 ->
             position w10 <> position w0).
  { intros w0 w10 H0 H10 E.
    cbn in H0, H10. inversion H0; inversion H10; subst w0 w10.
    cbn in E. inversion E. lra. }
  split; [exact H | ].
  apply (C5_cte_invariant_under_rigid_motion
           failing_fit straight_path (5, 2) (PI / 2) 1 2 H).
Defined.

(** C5 as stated fails where point 10 of the path coincides with point 0:
    the half turn about the origin maps the CTE 2 to -2. *)
Lemma C5_counterexample :
  calculate_cte failing_fit returning_path (5, 2) = Ok 2
  /\ calculate_cte failing_fit
       (map (move_waypoint PI 0 0) returning_path) (rigid PI 0 0 (5, 2))
     = Ok (-2)
  /\ calculate_cte failing_fit
       (map (move_waypoint PI 0 0) returning_path) (rigid PI 0 0 (5, 2))
     <> calculate_cte failing_fit returning_path (5, 2).
Proof.
  assert (H1 : calculate_cte failing_fit returning_path (5, 2) = Ok 2).
  { rewrite (calculate_cte_level_path failing_fit returning_path (5, 2)
               (waypoint_at 0 0) (waypoint_at 0 0)).
    - cbn. f_equal. lra.
    - reflexivity.
    - reflexivity.
    - unfold returning_path. cbn [map seq app]. repeat constructor.
    - cbn. lra.
    - unfold returning_path. level_path_det. }
  assert (H2 : calculate_cte failing_fit
                 (map (move_waypoint PI 0 0) returning_path)
                 (rigid PI 0 0 (5, 2)) = Ok (-2)).
  { rewrite (calculate_cte_level_path failing_fit _ _
               (move_waypoint PI 0 0 (waypoint_at 0 0))
               (move_waypoint PI 0 0 (waypoint_at 0 0))).
    - cbn -[IZR Rmult Rplus Rminus Ropp cos sin PI].
      rewrite cos_PI, sin_PI. f_equal. lra.
    - reflexivity.
    - reflexivity.
    - unfold returning_path. cbn [map seq app].
      repeat (constructor;
              [cbn -[IZR Rmult Rplus Rminus Ropp cos sin PI];
               rewrite sin_PI; ring | ]).
      constructor.
    - cbn. lra.
    - unfold returning_path. level_path_det. }
  split; [exact H1 | split; [exact H2 | ]].
  rewrite H1, H2. intros E. inversion E. lra.
Qed.

(** ** The loop *)

Section Loop.

Variable CtrlState : Type.
Variable control :
  CtrlState -> R -> R -> R -> R -> (R * R * R) * CtrlState.
Variable rank_deficient_fit : list R -> list R -> result (list R).

Local Abbreviation node := (DBWNode CtrlState).
Local Abbreviation body := (loop_body control rank_deficient_fit).
Local Abbreviation runs := (run control rank_deficient_fit).

Lemma gate_true (s : node) :
  gate s = true <->
  exists m cv lv av,
    dbw_enabled s = Some m /\ current_velocity s = Some cv
    /\ linear_velocity s = Some lv /\ angular_velocity s = Some av.
Proof.
  unfold gate, truthy. split.
  - destruct (dbw_enabled s) as [m |], (current_velocity s) as [cv |],
      (linear_velocity s) as [lv |], (angular_velocity s) as [av |];
      cbn; intros H; try discriminate.
    now exists m, cv, lv, av.
  - intros (m & cv & lv & av & -> & -> & -> & ->). reflexivity.
Qed.

Lemma gate_false (s : node) :
  gate s = false <->
  dbw_enabled s = None \/ current_velocity s = None
  \/ linear_velocity s = None \/ angular_velocity s = None.
Proof.
  unfold gate, truthy. split.
  - destruct (dbw_enabled s), (current_velocity s),
      (linear_velocity s), (angular_velocity s); cbn; intros H;
      try discriminate; tauto.
  - intros [-> | [-> | [-> | ->]]]; cbn;
      rewrite ?orb_true_r, ?andb_false_r; reflexivity.
Qed.

(** The [else] side of the loop's test: nothing happens. *)
Lemma loop_body_inactive (s : node) :
  gate s = false -> body s = Ok ([], s).
Proof. intros H. unfold loop_body. now rewrite H. Qed.

(** The body of the [if]. *)
Lemma loop_body_active (s : node) (m : BoolMsg) (cv lv av : R) :
  dbw_enabled s = Some m -> current_velocity s = Some cv ->
  linear_velocity s = Some lv -> angular_velocity s = Some av ->
  body s =
  (c <- cte_step rank_deficient_fit s ;;
   let '(cte, diag) := c in
   let '((throttle, brake, steering), ctrl) :=
     control (controller s) cv lv av cte in
   Ok (diag ++ publish throttle brake steering ++ [RateSleep],
       set_controller ctrl s)).
Proof.
  intros Hm Hcv Hlv Hav. unfold loop_body.
  rewrite (proj2 (gate_true s)) by (now exists m, cv, lv, av).
  now rewrite Hcv, Hlv, Hav.
Qed.

Lemma loop_body_returns (s : node) (m : BoolMsg) (cv lv av : R)
      (cte : R) (diag : list event) (t b st : R) (ctrl : CtrlState) :
  dbw_enabled s = Some m -> current_velocity s = Some cv ->
  linear_velocity s = Some lv -> angular_velocity s = Some av ->
  cte_step rank_deficient_fit s = Ok (cte, diag) ->
  control (controller s) cv lv av cte = ((t, b, st), ctrl) ->
  body s = Ok (diag ++ publish t b st ++ [RateSleep], set_controller ctrl s).
Proof.
  intros Hm Hcv Hlv Hav Hcte Hctl.
  rewrite (loop_body_active s m cv lv av Hm Hcv Hlv Hav), Hcte.
  cbn [bind]. now rewrite Hctl.
Qed.

Lemma loop_body_raises (s : node) (e : exn) :
  gate s = true ->
  cte_step rank_deficient_fit s = Raise e -> body s = Raise e.
Proof.
  intros Hg Hcte.
  apply gate_true in Hg as (m & cv & lv & av & Hm & Hcv & Hlv & Hav).
  now rewrite (loop_body_active s m cv lv av Hm Hcv Hlv Hav), Hcte.
Qed.

Lemma cte_step_absent (s : node) :
  cte_inputs_present s = false -> cte_step rank_deficient_fit s = Ok (0, []).
Proof.
  intros H. unfold cte_step. now rewrite H.
Qed.

Lemma cte_step_present (s : node) (p : Numpy.vec) (w : list Waypoint) :
  current_position s = Some p -> waypoints s = Some w ->
  cte_inputs_present s = true
  /\ cte_step rank_deficient_fit s =
     (cte <- calculate_cte rank_deficient_fit w p ;; Ok (cte, [CtePub cte])).
Proof.
  intros Hp Hw. unfold cte_step, cte_inputs_present.
  now rewrite Hp, Hw.
Qed.

Lemma cte_inputs_present_true (s : node) :
  cte_inputs_present s = true ->
  exists p w, current_position s = Some p /\ waypoints s = Some w.
Proof.
  unfold cte_inputs_present.
  destruct (current_position s) as [p |], (waypoints s) as [w |]; cbn;
    intros H; try discriminate.
  now exists p, w.
Qed.

(** C1, evaluated on the code: the gate does not look at the [data]
    field of the stored enable message.  The velocity, the motion
    request and the enable message [true] arrive, an iteration runs, the
    enable message [false] arrives, and the next iteration still
    publishes the three actuation commands. *)
Theorem C1_disable_message_does_not_close_the_gate
        (c : CtrlState) (velocity request : TwistStamped) :
  (forall (s : node) (enable : bool),
      gate (exec (dbw_enabled_cb {| data := enable |}) s)
      = gate (exec (dbw_enabled_cb {| data := true |}) s))
  /\ exists first second s t b st,
      runs (callback (velocity_cb velocity)
            ++ callback (twist_cb request)
            ++ callback (dbw_enabled_cb {| data := true |})
            ++ [LoopIteration]
            ++ callback (dbw_enabled_cb {| data := false |})
            ++ [LoopIteration])
           (init c)
      = ([first; second], Ok s)
      /\ dbw_enabled s = Some {| data := false |}
      /\ second = publish t b st ++ [RateSleep].
Proof.
  split; [reflexivity | ].
  cbn. unfold loop_body. cbn.
  destruct (control c (twist_linear_x velocity) (twist_linear_x request)
              (twist_angular_z request) 0) as [[[t1 b1] st1] c1].
  cbn.
  destruct (control c1 (twist_linear_x velocity) (twist_linear_x request)
              (twist_angular_z request) 0) as [[[t2 b2] st2] c2].
  cbn. do 3 eexists. exists t2, b2, st2.
  split; [reflexivity | split; reflexivity].
Qed.

(** C2, amended: a path of fewer than 11 points makes [calculate_cte]
    raise an index error, and the loop has no handler: whatever
    [calculate_cte] raises leaves the iteration and ends the run with
    nothing published, and whatever it returns, degenerate fit or not, is
    the CTE that is published and handed to the controller. *)
Theorem C2_cte_failure_leaves_the_loop
        (s : node) (p : Numpy.vec) (w : list Waypoint) :
  gate s = true ->
  current_position s = Some p ->
  waypoints s = Some w ->
  ((length w < 11)%nat ->
   calculate_cte rank_deficient_fit w p = Raise IndexError)
  /\ (forall e,
         calculate_cte rank_deficient_fit w p = Raise e ->
         body s = Raise e
         /\ forall rest, runs (LoopIteration :: rest) s = ([], Raise e))
  /\ (forall v,
         calculate_cte rank_deficient_fit w p = Ok v ->
         exists cv lv av t b st ctrl,
           current_velocity s = Some cv /\ linear_velocity s = Some lv
           /\ angular_velocity s = Some av
           /\ control (controller s) cv lv av v = ((t, b, st), ctrl)
           /\ body s = Ok (CtePub v :: publish t b st ++ [RateSleep],
                           set_controller ctrl s)).
Proof.
  intros Hg Hp Hw.
  destruct (cte_step_present s p w Hp Hw) as [_ Hstep].
  split; [apply calculate_cte_short | split].
  - intros e He.
    assert (Hb : body s = Raise e).
    { apply loop_body_raises; [exact Hg | ]. now rewrite Hstep, He. }
    split; [exact Hb | ]. intros rest. cbn [run]. now rewrite Hb.
  - intros v Hv.
    apply gate_true in Hg as (m & cv & lv & av & Hm & Hcv & Hlv & Hav).
    destruct (control (controller s) cv lv av v) as [[[t b] st] ctrl] eqn:Hc.
    exists cv, lv, av, t, b, st, ctrl. repeat (split; [assumption | ]).
    apply (loop_body_returns s m cv lv av v
             [CtePub v] t b st ctrl); try assumption.
    now rewrite Hstep, Hv.
Qed.

(** C3, evaluated on the code: while the gate is closed an iteration
    does nothing at all, so it does not call [rate.sleep()] either, and
    any number of iterations pass without a single sleep. *)
Theorem C3_inactive_iteration_does_not_sleep (s : node) (n : nat) :
  gate s = false ->
  body s = Ok ([], s)
  /\ runs (repeat LoopIteration n) s = (repeat [] n, Ok s).
Proof.
  intros Hg.
  pose proof (loop_body_inactive s Hg) as Hb.
  split; [exact Hb | ].
  induction n as [| n IH]; [reflexivity | ].
  cbn [repeat run]. now rewrite Hb, IH.
Qed.

(** C7, amended: on an active iteration the diagnostic CTE is published
    exactly when pose and path are both present and [calculate_cte]
    returns a value, which is the value published, ahead of the three
    commands; when [calculate_cte] raises (as it does on a path of fewer
    than 11 points) the iteration raises and publishes nothing; when
    pose or path is absent no diagnostic is emitted, the controller
    receives the CTE 0 and nothing is raised. *)
Theorem C7_diagnostic_cte_published_when_computed (s : node) :
  gate s = true ->
  (forall v,
      In (CtePub v) (emitted (body s)) <->
      exists p w, current_position s = Some p /\ waypoints s = Some w
                  /\ calculate_cte rank_deficient_fit w p = Ok v)
  /\ (forall p w v,
         current_position s = Some p -> waypoints s = Some w ->
         calculate_cte rank_deficient_fit w p = Ok v ->
         exists cv lv av t b st ctrl,
           current_velocity s = Some cv /\ linear_velocity s = Some lv
           /\ angular_velocity s = Some av
           /\ control (controller s) cv lv av v = ((t, b, st), ctrl)
           /\ body s
              = Ok ([ CtePub v;
                      ThrottlePub {| throttle_enable := true;
                                     throttle_pedal_cmd_type := CMD_PERCENT;
                                     throttle_pedal_cmd := t |};
                      SteerPub {| steering_enable := true;
                                  steering_wheel_angle_cmd := st |};
                      BrakePub {| brake_enable := true;
                                  brake_pedal_cmd_type := CMD_TORQUE;
                                  brake_pedal_cmd := b |};
                      RateSleep ],
                    set_controller ctrl s))
  /\ (forall p w e,
         current_position s = Some p -> waypoints s = Some w ->
         calculate_cte rank_deficient_fit w p = Raise e ->
         body s = Raise e /\ emitted (body s) = [])
  /\ (forall p w,
         current_position s = Some p -> waypoints s = Some w ->
         (length w < 11)%nat ->
         body s = Raise IndexError)
  /\ (cte_inputs_present s = false ->
      exists cv lv av t b st ctrl,
        current_velocity s = Some cv /\ linear_velocity s = Some lv
        /\ angular_velocity s = Some av
        /\ control (controller s) cv lv av 0 = ((t, b, st), ctrl)
        /\ body s
           = Ok ([ ThrottlePub {| throttle_enable := true;
                                  throttle_pedal_cmd_type := CMD_PERCENT;
                                  throttle_pedal_cmd := t |};
                   SteerPub {| steering_enable := true;
                               steering_wheel_angle_cmd := st |};
                   BrakePub {| brake_enable := true;
                               brake_pedal_cmd_type := CMD_TORQUE;
                               brake_pedal_cmd := b |};
                   RateSleep ],
                 set_controller ctrl s))
  /\ (forall out s',
         body s = Ok (out, s') ->
         ((exists v, In (CtePub v) out) <-> cte_inputs_present s = true)).
Proof.
  intros Hg. pose proof Hg as Hgate.
  apply gate_true in Hg as (m & cv & lv & av & Hm & Hcv & Hlv & Hav).
  assert (Hok : forall p w v,
             current_position s = Some p -> waypoints s = Some w ->
             calculate_cte rank_deficient_fit w p = Ok v ->
             forall t b st ctrl,
               control (controller s) cv lv av v = ((t, b, st), ctrl) ->
               body s = Ok ([CtePub v] ++ publish t b st ++ [RateSleep],
                            set_controller ctrl s)).
  { intros p w v Hp Hw Hv t b st ctrl Hc.
    apply (loop_body_returns s m cv lv av v [CtePub v] t b st ctrl);
      try assumption.
    destruct (cte_step_present s p w Hp Hw) as [_ Hstep].
    now rewrite Hstep, Hv. }
  assert (Hraise : forall p w e,
             current_position s = Some p -> waypoints s = Some w ->
             calculate_cte rank_deficient_fit w p = Raise e ->
             body s = Raise e).
  { intros p w e Hp Hw He. apply loop_body_raises; [exact Hgate | ].
    destruct (cte_step_present s p w Hp Hw) as [_ Hstep].
    now rewrite Hstep, He. }
  assert (Habsent : cte_inputs_present s = false ->
                    forall t b st ctrl,
                      control (controller s) cv lv av 0 = ((t, b, st), ctrl) ->
                      body s = Ok ([] ++ publish t b st ++ [RateSleep],
                                   set_controller ctrl s)).
  { intros Hpres t b st ctrl Hc.
    apply (loop_body_returns s m cv lv av 0 [] t b st ctrl); try assumption.
    now apply cte_step_absent. }
  assert (Hiff : forall v,
             In (CtePub v) (emitted (body s)) <->
             exists p w, current_position s = Some p /\ waypoints s = Some w
                         /\ calculate_cte rank_deficient_fit w p = Ok v).
  { intros v. destruct (cte_inputs_present s) eqn:Hpres.
    - apply cte_inputs_present_true in Hpres as (p & w & Hp & Hw).
      destruct (calculate_cte rank_deficient_fit w p) as [v' | e] eqn:Hv.
      + destruct (control (controller s) cv lv av v')
          as [[[t b] st] ctrl] eqn:Hc.
        rewrite (Hok p w v' Hp Hw Hv t b st ctrl Hc). cbn [emitted]. split.
        * intros [H | H]; [inversion H; subst v'; now exists p, w | ].
          cbn in H. destruct H as [H | [H | [H | [H | []]]]]; discriminate.
        * intros (p' & w' & Hp' & Hw' & Hv').
          rewrite Hp in Hp'. rewrite Hw in Hw'.
          inversion Hp'; inversion Hw'; subst p' w'.
          rewrite Hv in Hv'. inversion Hv'. now left.
      + rewrite (Hraise p w e Hp Hw Hv). cbn [emitted]. split.
        * intros [].
        * intros (p' & w' & Hp' & Hw' & Hv').
          rewrite Hp in Hp'. rewrite Hw in Hw'.
          inversion Hp'; inversion Hw'; subst p' w'.
          rewrite Hv in Hv'. discriminate.
    - destruct (control (controller s) cv lv av 0)
        as [[[t b] st] ctrl] eqn:Hc.
      rewrite (Habsent eq_refl t b st ctrl eq_refl). cbn [emitted]. split.
      + cbn. intros [H | [H | [H | [H | []]]]]; discriminate.
      + intros (p & w & Hp & Hw & _).
        destruct (cte_step_present s p w Hp Hw) as [Ht _]. congruence. }
  split; [exact Hiff | ].
  split.
  { intros p w v Hp Hw Hv.
    destruct (control (controller s) cv lv av v) as [[[t b] st] ctrl] eqn:Hc.
    exists cv, lv, av, t, b, st, ctrl. repeat (split; [assumption | ]).
    exact (Hok p w v Hp Hw Hv t b st ctrl Hc). }
  split.
  { intros p w e Hp Hw He. pose proof (Hraise p w e Hp Hw He) as Hb.
    split; [exact Hb | now rewrite Hb]. }
  split.
  { intros p w Hp Hw Hlen. apply (Hraise p w IndexError Hp Hw).
    now apply calculate_cte_short. }
  split.
  { intros Hpres.
    destruct (control (controller s) cv lv av 0) as [[[t b] st] ctrl] eqn:Hc.
    exists cv, lv, av, t, b, st, ctrl. repeat (split; [assumption | ]).
    exact (Habsent Hpres t b st ctrl eq_refl). }
  intros out s' Hout. split.
  - intros [v Hv].
    assert (Hin : In (CtePub v) (emitted (body s))) by (now rewrite Hout).
    apply Hiff in Hin as (p & w & Hp & Hw & _).
    now destruct (cte_step_present s p w Hp Hw).
  - intros Hpres.
    apply cte_inputs_present_true in Hpres as (p & w & Hp & Hw).
    destruct (calculate_cte rank_deficient_fit w p) as [v | e] eqn:Hv.
    + exists v.
      assert (Hin : In (CtePub v) (emitted (body s)))
        by (apply Hiff; now exists p, w).
      now rewrite Hout in Hin.
    + rewrite (Hraise p w e Hp Hw Hv) in Hout. discriminate.
Qed.

(** C8: every iteration that publishes actuation publishes exactly three
    commands, once and together: the throttle command, enabled, of type
    percent, with the controller's throttle; the steering command,
    enabled, with the controller's steering angle; the brake command,
    enabled, of type torque, with the controller's brake value.  An
    iteration with the gate closed publishes nothing. *)
Theorem C8_publication_forwards_controller_triple
        (s s' : node) (out : list event) :
  body s = Ok (out, s') ->
  (gate s = false /\ out = [])
  \/ (gate s = true
      /\ exists cv lv av cte t b st ctrl,
          current_velocity s = Some cv /\ linear_velocity s = Some lv
          /\ angular_velocity s = Some av
          /\ control (controller s) cv lv av cte = ((t, b, st), ctrl)
          /\ filter is_actuation out
             = [ ThrottlePub {| throttle_enable := true;
                                throttle_pedal_cmd_type := CMD_PERCENT;
                                throttle_pedal_cmd := t |};
                 SteerPub {| steering_enable := true;
                             steering_wheel_angle_cmd := st |};
                 BrakePub {| brake_enable := true;
                             brake_pedal_cmd_type := CMD_TORQUE;
                             brake_pedal_cmd := b |} ]).
Proof.
  intros Hout.
  destruct (gate s) eqn:Hg.
  - right. split; [reflexivity | ].
    apply gate_true in Hg as (m & cv & lv & av & Hm & Hcv & Hlv & Hav).
    rewrite (loop_body_active s m cv lv av
               Hm Hcv Hlv Hav) in Hout.
    assert (Hdiag : forall cte diag,
               cte_step rank_deficient_fit s = Ok (cte, diag) ->
               filter is_actuation diag = []).
    { intros cte diag. unfold cte_step.
      destruct (cte_inputs_present s);
        [ | intros H; inversion H; reflexivity].
      destruct (current_position s) as [p |], (waypoints s) as [w |];
        try (intros H; inversion H; reflexivity).
      destruct (calculate_cte rank_deficient_fit w p); cbn [bind];
        intros H; inversion H; reflexivity. }
    destruct (cte_step rank_deficient_fit s) as [[cte diag] | e] eqn:Hstep;
      cbn [bind] in Hout; [ | discriminate].
    destruct (control (controller s) cv lv av cte) as [[[t b] st] ctrl] eqn:Hc.
    inversion Hout; subst out s'.
    exists cv, lv, av, cte, t, b, st, ctrl. repeat (split; [assumption | ]).
    rewrite filter_app, (Hdiag cte diag eq_refl). reflexivity.
  - left. split; [reflexivity | ].
    rewrite (loop_body_inactive s Hg) in Hout.
    now inversion Hout.
Qed.

(** C9, amended: [twist_cb] stores the pair by two assignments, the
    linear velocity first.  Once the callback has finished both fields
    come from its message, but between the two assignments the node
    holds the new linear velocity with the old angular velocity, and a
    loop iteration that runs there hands that pair to the controller. *)
Theorem C9_twist_cb_assigns_fields_one_by_one
        (s : node) (old new : TwistStamped) :
  twist_cb new = [SetLinearVelocity (twist_linear_x new);
                  SetAngularVelocity (twist_angular_z new)]
  /\ (linear_velocity (exec (twist_cb new) s) = Some (twist_linear_x new)
      /\ angular_velocity (exec (twist_cb new) s)
         = Some (twist_angular_z new))
  /\ (let mid := exec (firstn 1 (twist_cb new)) (exec (twist_cb old) s) in
      linear_velocity mid = Some (twist_linear_x new)
      /\ angular_velocity mid = Some (twist_angular_z old)
      /\ forall m cv cte diag t b st ctrl,
          dbw_enabled s = Some m ->
          current_velocity s = Some cv ->
          cte_step rank_deficient_fit mid = Ok (cte, diag) ->
          control (controller s) cv (twist_linear_x new)
                  (twist_angular_z old) cte = ((t, b, st), ctrl) ->
          body mid = Ok (diag ++ publish t b st ++ [RateSleep],
                         set_controller ctrl mid)).
Proof.
  split; [reflexivity | split; [split; reflexivity | ]].
  cbv zeta. split; [reflexivity | split; [reflexivity | ]].
  intros m cv cte diag t b st ctrl Hm Hcv Hstep Hc.
  apply (loop_body_returns _ m cv
           (twist_linear_x new) (twist_angular_z old) cte diag t b st ctrl);
    try assumption; reflexivity.
Qed.

(** C10, amended: the gate tests presence, not truth.  With an enable
    message stored and the three velocities present and equal to 0 the
    gate is open: the controller is called on (0, 0, 0, cte) and the
    three commands carrying its output are published, with the CTE 0
    when pose or path is absent and with the computed CTE, published
    first, when [calculate_cte] returns one; only when pose and path are
    present and [calculate_cte] raises does the iteration raise instead.
    The gate is closed exactly when one of the four attributes is still
    [None]. *)
Theorem C10_gate_is_a_presence_check (s : node) (m : BoolMsg) :
  dbw_enabled s = Some m ->
  current_velocity s = Some 0 ->
  linear_velocity s = Some 0 ->
  angular_velocity s = Some 0 ->
  gate s = true
  /\ (cte_inputs_present s = false ->
      exists t b st ctrl,
        control (controller s) 0 0 0 0 = ((t, b, st), ctrl)
        /\ body s
           = Ok ([ ThrottlePub {| throttle_enable := true;
                                  throttle_pedal_cmd_type := CMD_PERCENT;
                                  throttle_pedal_cmd := t |};
                   SteerPub {| steering_enable := true;
                               steering_wheel_angle_cmd := st |};
                   BrakePub {| brake_enable := true;
                               brake_pedal_cmd_type := CMD_TORQUE;
                               brake_pedal_cmd := b |};
                   RateSleep ],
                 set_controller ctrl s))
  /\ (forall p w v,
         current_position s = Some p -> waypoints s = Some w ->
         calculate_cte rank_deficient_fit w p = Ok v ->
         exists t b st ctrl,
           control (controller s) 0 0 0 v = ((t, b, st), ctrl)
           /\ body s
              = Ok ([ CtePub v;
                      ThrottlePub {| throttle_enable := true;
                                     throttle_pedal_cmd_type := CMD_PERCENT;
                                     throttle_pedal_cmd := t |};
                      SteerPub {| steering_enable := true;
                                  steering_wheel_angle_cmd := st |};
                      BrakePub {| brake_enable := true;
                                  brake_pedal_cmd_type := CMD_TORQUE;
                                  brake_pedal_cmd := b |};
                      RateSleep ],
                    set_controller ctrl s))
  /\ (forall p w e,
         current_position s = Some p -> waypoints s = Some w ->
         calculate_cte rank_deficient_fit w p = Raise e ->
         body s = Raise e)
  /\ (forall s0 : node,
         gate s0 = false <->
         dbw_enabled s0 = None \/ current_velocity s0 = None
         \/ linear_velocity s0 = None \/ angular_velocity s0 = None).
Proof.
  intros Hm Hcv Hlv Hav.
  assert (Hg : gate s = true) by (apply gate_true; now exists m, 0, 0, 0).
  split; [exact Hg | ].
  split.
  { intros Hpres.
    destruct (control (controller s) 0 0 0 0) as [[[t b] st] ctrl] eqn:Hc.
    exists t, b, st, ctrl. split; [reflexivity | ].
    change (body s = Ok ([] ++ publish t b st ++ [RateSleep],
                         set_controller ctrl s)).
    apply (loop_body_returns s m 0 0 0 0 [] t b st ctrl); try assumption.
    now apply cte_step_absent. }
  split.
  { intros p w v Hp Hw Hv.
    destruct (control (controller s) 0 0 0 v) as [[[t b] st] ctrl] eqn:Hc.
    exists t, b, st, ctrl. split; [reflexivity | ].
    change (body s = Ok ([CtePub v] ++ publish t b st ++ [RateSleep],
                         set_controller ctrl s)).
    apply (loop_body_returns s m 0 0 0 v [CtePub v] t b st ctrl);
      try assumption.
    destruct (cte_step_present s p w Hp Hw) as [_ Hstep].
    now rewrite Hstep, Hv. }
  split; [ | apply gate_false].
  intros p w e Hp Hw He. apply loop_body_raises; [exact Hg | ].
  destruct (cte_step_present s p w Hp Hw) as [_ Hstep].
  now rewrite Hstep, He.
Qed.

End Loop.

(** ** The loop on the sample nodes *)

(** C2 as stated fails on a three-point path: the iteration raises the
    index error instead of continuing with the CTE 0, and the run ends. *)
Lemma C2_counterexample :
  gate (node_with_path short_path 0 0) = true
  /\ loop_body echo_control failing_fit (node_with_path short_path 0 0)
     = Raise IndexError
  /\ run echo_control failing_fit [LoopIteration; LoopIteration]
         (node_with_path short_path 0 0)
     = ([], Raise IndexError).
Proof. repeat split; reflexivity. Qed.

Lemma C2_witness :
  gate (node_with_path short_path 0 0) = true
  /\ current_position (node_with_path short_path 0 0) = Some (0, 0)
  /\ waypoints (node_with_path short_path 0 0) = Some short_path
  /\ (length short_path < 11)%nat
  /\ loop_body echo_control failing_fit (node_with_path short_path 0 0)
     = Raise IndexError.
Proof.
  assert (Hlen : (length short_path < 11)%nat) by (cbn; lia).
  destruct (C2_cte_failure_leaves_the_loop
              unit echo_control failing_fit
              (node_with_path short_path 0 0) (0, 0) short_path
              eq_refl eq_refl eq_refl) as (Hshort & Hraise & _).
  do 3 (split; [reflexivity | ]).
  split; [exact Hlen | ].
  exact (proj1 (Hraise IndexError (Hshort Hlen))).
Defined.

Lemma C3_witness :
  gate (init tt) = false
  /\ loop_body echo_control failing_fit (init tt) = Ok ([], init tt)
  /\ run echo_control failing_fit (repeat LoopIteration 3) (init tt)
     = (repeat [] 3, Ok (init tt)).
Proof.
  split; [reflexivity | ].
  exact (C3_inactive_iteration_does_not_sleep
           unit echo_control failing_fit (init tt) 3 eq_refl).
Defined.

(** C7 as stated fails on a path of ten points: the gate is open, pose
    and path are both present, and no diagnostic is published because
    the iteration raises. *)
Lemma C7_counterexample :
  gate (node_with_path (firstn 10 straight_path) 5 2) = true
  /\ cte_inputs_present (node_with_path (firstn 10 straight_path) 5 2) = true
  /\ loop_body echo_control failing_fit
       (node_with_path (firstn 10 straight_path) 5 2)
     = Raise IndexError.
Proof. repeat split; reflexivity. Qed.

Lemma straight_path_cte_left (fit : list R -> list R -> result (list R)) :
  calculate_cte fit straight_path (5, 2) = Ok 2.
Proof. rewrite straight_path_cte. cbn [snd]. f_equal. lra. Qed.

Lemma C7_witness :
  gate (node_with_path straight_path 5 2) = true
  /\ current_position (node_with_path straight_path 5 2) = Some (5, 2)
  /\ waypoints (node_with_path straight_path 5 2) = Some straight_path
  /\ calculate_cte failing_fit straight_path (5, 2) = Ok 2
  /\ loop_body echo_control failing_fit (node_with_path straight_path 5 2)
     = Ok ([ CtePub 2;
             ThrottlePub {| throttle_enable := true;
                            throttle_pedal_cmd_type := CMD_PERCENT;
                            throttle_pedal_cmd := 4 |};
             SteerPub {| steering_enable := true;
                         steering_wheel_angle_cmd := 2 |};
             BrakePub {| brake_enable := true;
                         brake_pedal_cmd_type := CMD_TORQUE;
                         brake_pedal_cmd := 1 / 2 |};
             RateSleep ],
           node_with_path straight_path 5 2)
  /\ gate (node_without_path true) = true
  /\ cte_inputs_present (node_without_path true) = false
  /\ loop_body echo_control failing_fit (node_without_path true)
     = Ok ([ ThrottlePub {| throttle_enable := true;
                            throttle_pedal_cmd_type := CMD_PERCENT;
                            throttle_pedal_cmd := 4 |};
             SteerPub {| steering_enable := true;
                         steering_wheel_angle_cmd := 0 |};
             BrakePub {| brake_enable := true;
                         brake_pedal_cmd_type := CMD_TORQUE;
                         brake_pedal_cmd := 1 / 2 |};
             RateSleep ],
           node_without_path true).
Proof.
  destruct (C7_diagnostic_cte_published_when_computed
              unit echo_control failing_fit
              (node_with_path straight_path 5 2) eq_refl)
    as (_ & Hpresent & _).
  destruct (Hpresent (5, 2) straight_path 2 eq_refl eq_refl
              (straight_path_cte_left failing_fit))
    as (cv & lv & av & t & b & st & ctrl & Hcv & Hlv & Hav & Hc & Hbody).
  destruct (C7_diagnostic_cte_published_when_computed
              unit echo_control failing_fit
              (node_without_path true) eq_refl)
    as (_ & _ & _ & _ & Habsent & _).
  destruct (Habsent eq_refl)
    as (cv' & lv' & av' & t' & b' & st' & ctrl'
        & Hcv' & Hlv' & Hav' & Hc' & Hbody').
  inversion Hcv; inversion Hlv; inversion Hav; subst cv lv av.
  inversion Hc; subst t b st.
  inversion Hcv'; inversion Hlv'; inversion Hav'; subst cv' lv' av'.
  inversion Hc'; subst t' b' st'.
  destruct ctrl, ctrl'.
  do 3 (split; [reflexivity | ]).
  split; [exact (straight_path_cte_left failing_fit) | ].
  split; [exact Hbody | ].
  do 2 (split; [reflexivity | ]).
  exact Hbody'.
Defined.

Lemma C8_witness :
  loop_body echo_control failing_fit (node_without_path true)
  = Ok (publish 4 (1 / 2) 0 ++ [RateSleep], node_without_path true)
  /\ ((gate (node_without_path true) = false
       /\ publish 4 (1 / 2) 0 ++ [RateSleep] = [])
      \/ (gate (node_without_path true) = true
          /\ exists cv lv av cte t b st ctrl,
              current_velocity (node_without_path true) = Some cv
              /\ linear_velocity (node_without_path true) = Some lv
              /\ angular_velocity (node_without_path true) = Some av
              /\ echo_control (controller (node_without_path true))
                   cv lv av cte = ((t, b, st), ctrl)
              /\ filter is_actuation (publish 4 (1 / 2) 0 ++ [RateSleep])
                 = [ ThrottlePub {| throttle_enable := true;
                                    throttle_pedal_cmd_type := CMD_PERCENT;
                                    throttle_pedal_cmd := t |};
                     SteerPub {| steering_enable := true;
                                 steering_wheel_angle_cmd := st |};
                     BrakePub {| brake_enable := true;
                                 brake_pedal_cmd_type := CMD_TORQUE;
                                 brake_pedal_cmd := b |} ])).
Proof.
  split; [reflexivity | ].
  exact (C8_publication_forwards_controller_triple
           unit echo_control failing_fit
           (node_without_path true) (node_without_path true)
           (publish 4 (1 / 2) 0 ++ [RateSleep]) eq_refl).
Defined.

(** C9 as stated fails when the loop runs between the two assignments of
    [twist_cb]: after the request (1, 1/10) the request (2, 2/10)
    arrives, and the iteration sees the linear velocity 2 with the
    angular velocity 1/10. *)
Lemma C9_counterexample :
  run echo_control failing_fit
      (callback (dbw_enabled_cb {| data := true |})
       ++ callback (velocity_cb (twist_msg 3 0))
       ++ callback (twist_cb (twist_msg 1 (1 / 10)))
       ++ callback (firstn 1 (twist_cb (twist_msg 2 (2 / 10))))
       ++ [LoopIteration]
       ++ callback (skipn 1 (twist_cb (twist_msg 2 (2 / 10)))))
      (init tt)
  = ([publish 2 (1 / 10) 0 ++ [RateSleep]],
     Ok (exec (dbw_enabled_cb {| data := true |}
               ++ velocity_cb (twist_msg 3 0)
               ++ twist_cb (twist_msg 2 (2 / 10)))
              (init tt))).
Proof. reflexivity. Qed.

Lemma C9_witness :
  dbw_enabled (node_without_path true) = Some {| data := true |}
  /\ current_velocity (node_without_path true) = Some 3
  /\ loop_body echo_control failing_fit
       (exec (firstn 1 (twist_cb (twist_msg 2 (2 / 10))))
             (exec (twist_cb (twist_msg 1 (1 / 10)))
                   (node_without_path true)))
     = Ok ([] ++ publish 2 (1 / 10) 0 ++ [RateSleep],
           set_controller tt
             (exec (firstn 1 (twist_cb (twist_msg 2 (2 / 10))))
                   (exec (twist_cb (twist_msg 1 (1 / 10)))
                         (node_without_path true)))).
Proof.
  split; [reflexivity | split; [reflexivity | ]].
  exact (proj2 (proj2 (proj2 (proj2
           (C9_twist_cb_assigns_fields_one_by_one
              unit echo_control failing_fit (node_without_path true)
              (twist_msg 1 (1 / 10)) (twist_msg 2 (2 / 10))))))
           {| data := true |} 3 0 [] 2 (1 / 10) 0 tt
           eq_refl eq_refl eq_refl eq_refl).
Defined.

(** C10 as stated fails when a pose and a three-point path are present
    as well: the enable message is stored, the three velocities are 0,
    the gate is open, and the iteration raises before the controller is
    called or anything is published. *)
Lemma C10_counterexample :
  dbw_enabled (node_at_rest_with_path short_path 0 0)
  = Some {| data := true |}
  /\ current_velocity (node_at_rest_with_path short_path 0 0) = Some 0
  /\ linear_velocity (node_at_rest_with_path short_path 0 0) = Some 0
  /\ angular_velocity (node_at_rest_with_path short_path 0 0) = Some 0
  /\ gate (node_at_rest_with_path short_path 0 0) = true
  /\ loop_body echo_control failing_fit
       (node_at_rest_with_path short_path 0 0)
     = Raise IndexError.
Proof. repeat split; reflexivity. Qed.

Lemma C10_witness :
  dbw_enabled (node_at_rest_with_path straight_path 5 2)
  = Some {| data := true |}
  /\ current_velocity (node_at_rest_with_path straight_path 5 2) = Some 0
  /\ linear_velocity (node_at_rest_with_path straight_path 5 2) = Some 0
  /\ angular_velocity (node_at_rest_with_path straight_path 5 2) = Some 0
  /\ gate (node_at_rest_with_path straight_path 5 2) = true
  /\ loop_body echo_control failing_fit
       (node_at_rest_with_path straight_path 5 2)
     = Ok ([ CtePub 2;
             ThrottlePub {| throttle_enable := true;
                            throttle_pedal_cmd_type := CMD_PERCENT;
                            throttle_pedal_cmd := 0 |};
             SteerPub {| steering_enable := true;
                         steering_wheel_angle_cmd := 2 |};
             BrakePub {| brake_enable := true;
                         brake_pedal_cmd_type := CMD_TORQUE;
                         brake_pedal_cmd := 0 |};
             RateSleep ],
           node_at_rest_with_path straight_path 5 2)
  /\ loop_body echo_control failing_fit node_at_rest
     = Ok ([ ThrottlePub {| throttle_enable := true;
                            throttle_pedal_cmd_type := CMD_PERCENT;
                            throttle_pedal_cmd := 0 |};
             SteerPub {| steering_enable := true;
                         steering_wheel_angle_cmd := 0 |};
             BrakePub {| brake_enable := true;
                         brake_pedal_cmd_type := CMD_TORQUE;
                         brake_pedal_cmd := 0 |};
             RateSleep ],
           node_at_rest).
Proof.
  destruct (C10_gate_is_a_presence_check
              unit echo_control failing_fit
              (node_at_rest_with_path straight_path 5 2)
              {| data := true |} eq_refl eq_refl eq_refl eq_refl)
    as (Hgate & _ & Hpresent & _).
  destruct (Hpresent (5, 2) straight_path 2 eq_refl eq_refl
              (straight_path_cte_left failing_fit))
    as (t & b & st & ctrl & Hc & Hbody).
  destruct (C10_gate_is_a_presence_check
              unit echo_control failing_fit node_at_rest
              {| data := true |} eq_refl eq_refl eq_refl eq_refl)
    as (_ & Habsent & _).
  destruct (Habsent eq_refl) as (t' & b' & st' & ctrl' & Hc' & Hbody').
  inversion Hc; subst t b st. inversion Hc'; subst t' b' st'.
  destruct ctrl, ctrl'.
  do 4 (split; [reflexivity | ]).
  split; [exact Hgate | ].
  split; [exact Hbody | exact Hbody'].
Defined.

(** * Further properties *)

(** ** Callbacks as sequences of assignments *)

Section Callbacks.

Variable CtrlState : Type.

Local Abbreviation node := (DBWNode CtrlState).

Lemma assign_overwrites (a b : assignment) (s : node) :
  target a = target b -> assign b (assign a s) = assign b s.
Proof. destruct a, b; intros H; try discriminate H; reflexivity. Qed.

Lemma assign_commutes (a b : assignment) (s : node) :
  target a <> target b -> assign b (assign a s) = assign a (assign b s).
Proof.
  destruct a, b; intros H; try reflexivity; exfalso; apply H; reflexivity.
Qed.

Lemma exec_cons (a : assignment) (cb : list assignment) (s : node) :
  exec (a :: cb) s = exec cb (assign a s).
Proof. reflexivity. Qed.

Lemma exec_app (cb1 cb2 : list assignment) (s : node) :
  exec (cb1 ++ cb2) s = exec cb2 (exec cb1 s).
Proof. unfold exec. apply fold_left_app. Qed.

Lemma assign_past_exec (a : assignment) (cb : list assignment) (s : node) :
  (forall b, In b cb -> target a <> target b) ->
  exec cb (assign a s) = assign a (exec cb s).
Proof.
  revert s. induction cb as [| b cb IH]; intros s H; [reflexivity | ].
  rewrite !exec_cons.
  rewrite assign_commutes by (apply H; now left).
  apply IH. intros b' Hb'. apply H. now right.
Qed.

Lemma exec_absorbs (a : assignment) (cb : list assignment) (s : node) :
  In (target a) (map target cb) -> exec cb (assign a s) = exec cb s.
Proof.
  revert s. induction cb as [| b cb IH]; intros s H; [contradiction | ].
  rewrite !exec_cons.
  assert (D : {target a = target b} + {target a <> target b})
    by (decide equality).
  destruct D as [E | N].
  - now rewrite assign_overwrites.
  - rewrite assign_commutes by exact N.
    apply IH. destruct H as [H | H]; [congruence | exact H].
Qed.

(** X1: callbacks that write different attributes commute: the node
    after two such callbacks does not depend on the order in which the
    subscriber threads ran them. *)
Theorem X1_callbacks_on_different_attributes_commute
        (cb1 cb2 : list assignment) (s : node) :
  (forall a b, In a cb1 -> In b cb2 -> target a <> target b) ->
  exec cb2 (exec cb1 s) = exec cb1 (exec cb2 s).
Proof.
  revert s. induction cb1 as [| a cb1 IH]; intros s H; [reflexivity | ].
  rewrite !exec_cons.
  rewrite IH by (intros a' b Ha' Hb; apply H; [now right | exact Hb]).
  f_equal. apply assign_past_exec.
  intros b Hb. apply H; [now left | exact Hb].
Qed.

(** X2: a callback overwrites whatever an earlier callback stored in the
    attributes it writes: when every attribute written by the first is
    written by the second, only the second is seen afterwards.  In
    particular the latest message of each topic wins. *)
Theorem X2_later_callback_overwrites_earlier
        (cb1 cb2 : list assignment) (s : node) :
  (forall a, In a cb1 -> In (target a) (map target cb2)) ->
  exec cb2 (exec cb1 s) = exec cb2 s.
Proof.
  revert s. induction cb1 as [| a cb1 IH]; intros s H; [reflexivity | ].
  rewrite exec_cons.
  rewrite IH by (intros a' Ha'; apply H; now right).
  apply exec_absorbs. apply H. now left.
Qed.

End Callbacks.

Lemma X1_witness :
  (forall a b,
      In a (twist_cb (twist_msg 1 2)) -> In b (velocity_cb (twist_msg 3 0)) ->
      target a <> target b)
  /\ exec (velocity_cb (twist_msg 3 0))
          (exec (twist_cb (twist_msg 1 2)) (init tt))
     = exec (twist_cb (twist_msg 1 2))
            (exec (velocity_cb (twist_msg 3 0)) (init tt)).
Proof.
  assert (H : forall a b,
             In a (twist_cb (twist_msg 1 2)) ->
             In b (velocity_cb (twist_msg 3 0)) ->
             target a <> target b).
  { intros a b [<- | [<- | []]] [<- | []]; discriminate. }
  split; [exact H | ].
  exact (X1_callbacks_on_different_attributes_commute
           unit (twist_cb (twist_msg 1 2)) (velocity_cb (twist_msg 3 0))
           (init tt) H).
Defined.

Lemma X2_witness :
  (forall a,
      In a (twist_cb (twist_msg 1 2)) ->
      In (target a) (map target (twist_cb (twist_msg 5 6))))
  /\ exec (twist_cb (twist_msg 5 6))
          (exec (twist_cb (twist_msg 1 2)) (init tt))
     = exec (twist_cb (twist_msg 5 6)) (init tt).
Proof.
  assert (H : forall a,
             In a (twist_cb (twist_msg 1 2)) ->
             In (target a) (map target (twist_cb (twist_msg 5 6)))).
  { intros a [<- | [<- | []]]; cbn; tauto. }
  split; [exact H | ].
  exact (X2_later_callback_overwrites_earlier
           unit (twist_cb (twist_msg 1 2)) (twist_cb (twist_msg 5 6))
           (init tt) H).
Defined.

(** ** Runs *)

Section Runs.

Variable CtrlState : Type.
Variable control :
  CtrlState -> R -> R -> R -> R -> (R * R * R) * CtrlState.
Variable rank_deficient_fit : list R -> list R -> result (list R).

Local Abbreviation node := (DBWNode CtrlState).
Local Abbreviation body := (loop_body control rank_deficient_fit).
Local Abbreviation runs := (run control rank_deficient_fit).

Lemma set_controller_same (s : node) : set_controller (controller s) s = s.
Proof. now destruct s. Qed.

(** An iteration writes nothing but the controller. *)
Lemma loop_body_state (s s' : node) (out : list event) :
  body s = Ok (out, s') -> s' = set_controller (controller s') s.
Proof.
  unfold loop_body.
  destruct (gate s).
  2:{ intros H. inversion H. subst. symmetry. apply set_controller_same. }
  destruct (current_velocity s) as [cv |], (linear_velocity s) as [lv |],
    (angular_velocity s) as [av |];
    try (intros H; inversion H; subst; symmetry; apply set_controller_same).
  destruct (cte_step rank_deficient_fit s) as [[cte diag] | e];
    cbn [bind]; [ | discriminate].
  destruct (control (controller s) cv lv av cte) as [[[t b] st] ctrl].
  intros H. inversion H. reflexivity.
Qed.

Lemma unset_set_controller (x : attribute) (c : CtrlState) (s : node) :
  unset x (set_controller c s) = unset x s.
Proof. now destruct x. Qed.

Lemma unset_assign (x : attribute) (a : assignment) (s : node) :
  unset x s = false -> unset x (assign a s) = false.
Proof. destruct x, a; cbn; auto. Qed.

Lemma unset_assign_other (x : attribute) (a : assignment) (s : node) :
  target a <> x -> unset x (assign a s) = unset x s.
Proof.
  destruct x, a; cbn; intros H; try reflexivity; exfalso; apply H; reflexivity.
Qed.

Lemma gate_unset (s : node) :
  gate s = negb (unset AttrDbwEnabled s)
           && negb (unset AttrCurrentVelocity s
                    || unset AttrLinearVelocity s
                    || unset AttrAngularVelocity s).
Proof. reflexivity. Qed.

Lemma cte_inputs_present_unset (s : node) :
  cte_inputs_present s
  = negb (unset AttrCurrentPosition s || unset AttrWaypoints s).
Proof. reflexivity. Qed.

Lemma gate_closed_while_unset (x : attribute) (s : node) :
  gate_reads x = true -> unset x s = true -> gate s = false.
Proof.
  rewrite gate_unset.
  destruct x; cbn [gate_reads]; intros Hr Hx; try discriminate;
    rewrite Hx; cbn; rewrite ?orb_true_r, ?andb_false_r; reflexivity.
Qed.

Lemma run_assign (a : assignment) (rest : list step) (s : node) :
  runs (Assign a :: rest) s = runs rest (assign a s).
Proof. reflexivity. Qed.

Lemma run_iteration (rest : list step) (s s1 : node) (out : list event) :
  body s = Ok (out, s1) ->
  runs (LoopIteration :: rest) s
  = (out :: fst (runs rest s1), snd (runs rest s1)).
Proof.
  intros H. cbn [run]. rewrite H. now destruct (runs rest s1).
Qed.

Lemma run_raise (rest : list step) (s : node) (e : exn) :
  body s = Raise e -> runs (LoopIteration :: rest) s = ([], Raise e).
Proof. intros H. cbn [run]. now rewrite H. Qed.

(** Preservation along a run of a property of nodes that assignments
    and iterations preserve. *)
Lemma run_preserves (P : node -> Prop) :
  (forall a s, P s -> P (assign a s)) ->
  (forall c s, P s -> P (set_controller c s)) ->
  forall sched s outs s',
    P s -> runs sched s = (outs, Ok s') -> P s'.
Proof.
  intros Ha Hc. induction sched as [| [a |] rest IH]; intros s outs s' Hs Hrun.
  - cbn in Hrun. inversion Hrun. now subst.
  - rewrite run_assign in Hrun. eapply IH; [ | exact Hrun]. now apply Ha.
  - destruct (body s) as [[out s1] | e] eqn:Hb.
    + rewrite (run_iteration rest s s1 out Hb) in Hrun.
      inversion Hrun as [[Houts Hres]].
      apply (IH s1 (fst (runs rest s1)) s').
      * rewrite (loop_body_state s s1 out Hb). now apply Hc.
      * rewrite <- Hres. now destruct (runs rest s1).
    + rewrite (run_raise rest s e Hb) in Hrun. discriminate.
Qed.

(** X3: no callback and no iteration ever puts [None] back into an
    attribute.  Along every run an attribute that has been assigned
    stays assigned, so a gate that is open stays open and CTE inputs that
    are present stay present. *)
Theorem X3_assigned_attributes_stay_assigned
        (sched : list step) (s s' : node) (outs : list (list event)) :
  runs sched s = (outs, Ok s') ->
  (forall x, unset x s = false -> unset x s' = false)
  /\ (gate s = true -> gate s' = true)
  /\ (cte_inputs_present s = true -> cte_inputs_present s' = true).
Proof.
  intros Hrun.
  assert (Hx : forall x, unset x s = false -> unset x s' = false).
  { intros x Hs.
    apply (run_preserves (fun n => unset x n = false)) with sched s outs;
      try assumption.
    - intros a n. apply unset_assign.
    - intros c n Hn. now rewrite unset_set_controller. }
  split; [exact Hx | split].
  - rewrite !gate_unset. intros Hg.
    apply andb_true_iff in Hg as [H1 H2].
    apply negb_true_iff in H1, H2.
    apply orb_false_iff in H2 as [H2 H4].
    apply orb_false_iff in H2 as [H2 H3].
    now rewrite (Hx _ H1), (Hx _ H2), (Hx _ H3), (Hx _ H4).
  - rewrite !cte_inputs_present_unset. intros Hp.
    apply negb_true_iff in Hp. apply orb_false_iff in Hp as [H1 H2].
    now rewrite (Hx _ H1), (Hx _ H2).
Qed.

(** X4: nothing is published before every attribute the gate reads has
    been assigned.  If one of them is still [None] and the schedule does
    not assign it, every iteration of the run completes with an empty
    output and the attribute is still [None] at the end. *)
Theorem X4_no_output_while_a_gate_attribute_is_unset
        (x : attribute) (sched : list step) (s : node) :
  gate_reads x = true ->
  unset x s = true ->
  (forall a, In (Assign a) sched -> target a <> x) ->
  exists outs s',
    runs sched s = (outs, Ok s')
    /\ Forall (fun out => out = []) outs
    /\ unset x s' = true.
Proof.
  intros Hr. revert s.
  induction sched as [| [a |] rest IH]; intros s Hx Hsched.
  - exists [], s. now repeat split.
  - rewrite run_assign. apply IH.
    + rewrite unset_assign_other; [exact Hx | ]. apply Hsched. now left.
    + intros b Hb. apply Hsched. now right.
  - assert (Hb : body s = Ok ([], s)).
    { unfold loop_body. now rewrite (gate_closed_while_unset x s Hr Hx). }
    destruct (IH s Hx) as (outs & s' & Hrun & Hout & Hx').
    { intros b Hb'. apply Hsched. now right. }
    exists ([] :: outs), s'.
    rewrite (run_iteration rest s s [] Hb), Hrun. cbn [fst snd].
    repeat split; [ | exact Hx']. now constructor.
Qed.

(** X5: an iteration of the loop never writes a cached input.  After it
    the node differs from the node before at most in the controller, so
    the gate and the CTE step of the next iteration are the same unless
    a callback runs in between. *)
Theorem X5_iteration_leaves_cached_inputs
        (s s' : node) (out : list event) :
  body s = Ok (out, s') ->
  s' = set_controller (controller s') s
  /\ gate s' = gate s
  /\ cte_step rank_deficient_fit s' = cte_step rank_deficient_fit s.
Proof.
  intros Hb. pose proof (loop_body_state s s' out Hb) as Hs.
  split; [exact Hs | ]. rewrite Hs. split; reflexivity.
Qed.

(** X6: once the gate is open no sequence of messages closes it again:
    every iteration that completes afterwards, whatever callbacks ran
    before it, publishes the three actuation commands: an enabled
    throttle command of type percent, an enabled steering command and an
    enabled brake command of type torque. *)
Theorem X6_open_gate_never_closes
        (sched : list step) (s : node) :
  gate s = true ->
  Forall (fun out =>
            exists t b st,
              filter is_actuation out
              = [ ThrottlePub {| throttle_enable := true;
                                 throttle_pedal_cmd_type := CMD_PERCENT;
                                 throttle_pedal_cmd := t |};
                  SteerPub {| steering_enable := true;
                              steering_wheel_angle_cmd := st |};
                  BrakePub {| brake_enable := true;
                              brake_pedal_cmd_type := CMD_TORQUE;
                              brake_pedal_cmd := b |} ])
         (fst (runs sched s)).
Proof.
  revert s. induction sched as [| [a |] rest IH]; intros s Hg.
  - constructor.
  - rewrite run_assign. apply IH.
    rewrite gate_unset in *.
    apply andb_true_iff in Hg as [H1 H2].
    apply negb_true_iff in H1, H2.
    apply orb_false_iff in H2 as [H2 H4].
    apply orb_false_iff in H2 as [H2 H3].
    now rewrite !unset_assign.
  - destruct (body s) as [[out s1] | e] eqn:Hb.
    + rewrite (run_iteration rest s s1 out Hb). cbn [fst].
      constructor.
      * revert Hb. unfold loop_body. rewrite Hg.
        destruct (current_velocity s) as [cv |] eqn:Hcv;
          [ | unfold gate in Hg; rewrite Hcv in Hg; cbn in Hg;
              rewrite andb_false_r in Hg; discriminate].
        destruct (linear_velocity s) as [lv |] eqn:Hlv;
          [ | unfold gate in Hg; rewrite Hlv in Hg; cbn in Hg;
              rewrite orb_true_r, andb_false_r in Hg; discriminate].
        destruct (angular_velocity s) as [av |] eqn:Hav;
          [ | unfold gate in Hg; rewrite Hav in Hg; cbn in Hg;
              rewrite !orb_true_r, andb_false_r in Hg; discriminate].
        unfold cte_step.
        destruct (cte_inputs_present s),
          (current_position s) as [p |], (waypoints s) as [w |];
          try destruct (calculate_cte rank_deficient_fit w p);
          cbn [bind]; try discriminate;
          match goal with
          | |- context [control ?c ?a1 ?a2 ?a3 ?a4] =>
              destruct (control c a1 a2 a3 a4) as [[[t b] st] ctrl]
          end;
          intros H; inversion H; subst; now exists t, b, st.
      * apply IH. rewrite (loop_body_state s s1 out Hb).
        exact Hg.
    + rewrite (run_raise rest s e Hb). constructor.
Qed.

(** X7: nothing ever writes [current_ang_velocity]: along every run
    started by [__init__] the attribute keeps its initial [None]. *)
Theorem X7_current_ang_velocity_is_never_written
        (sched : list step) (c : CtrlState) (s' : node)
        (outs : list (list event)) :
  runs sched (init c) = (outs, Ok s') ->
  current_ang_velocity s' = None.
Proof.
  intros Hrun.
  apply (run_preserves (fun n => current_ang_velocity n = None))
    with sched (init c) outs; try assumption.
  - intros a n Hn. now destruct a.
  - intros c' n Hn. exact Hn.
  - reflexivity.
Qed.

End Runs.

(** ** The path frame and the fit *)

Section FrameAndFit.

Import Numpy.

Variable rank_deficient_fit : list R -> list R -> result (list R).

Lemma in_frame_norm (o q p : vec) :
  fst (in_frame o q p) * fst (in_frame o q p)
  + snd (in_frame o q p) * snd (in_frame o q p)
  = (fst p - fst o) * (fst p - fst o) + (snd p - snd o) * (snd p - snd o).
Proof.
  unfold in_frame, rotation_of, dot, vsub. cbn [fst snd].
  pose proof (sin2_cos2 (heading_of o q)) as H. unfold Rsqr in H.
  set (c := cos (heading_of o q)) in *. set (s := sin (heading_of o q)) in *.
  set (x := fst p - fst o). set (y := snd p - snd o).
  replace ((x * c + y * s) * (x * c + y * s)
           + (x * - s + y * c) * (x * - s + y * c))
    with ((x * x + y * y) * (s * s + c * c)) by ring.
  rewrite H. ring.
Qed.

(** X8: the frame [calculate_cte] rotates the path into is oriented in
    the direction of travel: point 0 goes to the origin, point 10, when
    it differs from point 0, goes onto the positive x axis at its
    distance from point 0, and every point keeps its distance from
    point 0. *)
Theorem X8_path_frame_is_oriented_along_travel (o q p : vec) :
  in_frame o q o = (0, 0)
  /\ (q <> o ->
      in_frame o q q
      = (sqrt ((fst q - fst o) * (fst q - fst o)
               + (snd q - snd o) * (snd q - snd o)), 0)
      /\ 0 < fst (in_frame o q q))
  /\ fst (in_frame o q p) * fst (in_frame o q p)
     + snd (in_frame o q p) * snd (in_frame o q p)
     = (fst p - fst o) * (fst p - fst o) + (snd p - snd o) * (snd p - snd o).
Proof.
  split; [ | split; [ | apply in_frame_norm]].
  - unfold in_frame, rotation_of, dot, vsub. cbn [fst snd]. f_equal; ring.
  - intros Hne.
    assert (Hd : (fst q - fst o, snd q - snd o) <> (0, 0)).
    { pose proof (vsub_nonzero o q Hne) as H. exact H. }
    pose proof (norm_pos _ _ Hd) as Hr.
    assert (Hs : sqrt ((fst q - fst o) * (fst q - fst o)
                       + (snd q - snd o) * (snd q - snd o))
                 * sqrt ((fst q - fst o) * (fst q - fst o)
                         + (snd q - snd o) * (snd q - snd o))
                 = (fst q - fst o) * (fst q - fst o)
                   + (snd q - snd o) * (snd q - snd o)).
    { apply sqrt_sqrt.
      pose proof (Rle_0_sqr (fst q - fst o)) as Hx.
      pose proof (Rle_0_sqr (snd q - snd o)) as Hy.
      unfold Rsqr in Hx, Hy. lra. }
    assert (E : in_frame o q q
                = (sqrt ((fst q - fst o) * (fst q - fst o)
                         + (snd q - snd o) * (snd q - snd o)), 0)).
    { rewrite (in_frame_polar o q q Hne). cbv zeta.
      unfold vsub. cbn [fst snd].
      set (r := sqrt _) in *. rewrite <- Hs.
      f_equal; field; lra. }
    split; [exact E | ]. rewrite E. exact Hr.
Qed.

Lemma vsub_shift (tx ty : R) (p o : vec) :
  vsub (fst p + tx, snd p + ty) (fst o + tx, snd o + ty) = vsub p o.
Proof. unfold vsub. cbn [fst snd]. f_equal; ring. Qed.

Lemma in_frame_shift (tx ty : R) (o q p : vec) :
  in_frame (fst o + tx, snd o + ty) (fst q + tx, snd q + ty)
           (fst p + tx, snd p + ty)
  = in_frame o q p.
Proof.
  unfold in_frame, heading_of. now rewrite !vsub_shift.
Qed.

(** X9: moving the whole path and the pose by the same vector never
    changes the result of [calculate_cte], whatever the path: short
    paths raise the same index error and the others give the same CTE,
    also when point 10 coincides with point 0. *)
Theorem X9_cte_invariant_under_translation
        (ws : list Waypoint) (pose : vec) (tx ty : R) :
  calculate_cte rank_deficient_fit
    (map (shift_waypoint tx ty) ws) (fst pose + tx, snd pose + ty)
  = calculate_cte rank_deficient_fit ws pose.
Proof.
  destruct (Nat.lt_ge_cases (length ws) 11) as [Hshort | Hlong].
  - rewrite !calculate_cte_short; [reflexivity | exact Hshort | ].
    now rewrite length_map.
  - destruct (long_path_points ws Hlong) as (w0 & w10 & H0 & H10).
    rewrite (calculate_cte_frame _ ws pose w0 w10 H0 H10).
    rewrite (calculate_cte_frame _ (map (shift_waypoint tx ty) ws) _
               (shift_waypoint tx ty w0) (shift_waypoint tx ty w10)
               (map_nth_error _ _ _ H0) (map_nth_error _ _ _ H10)).
    cbv zeta.
    assert (Hpos : forall w, position (shift_waypoint tx ty w)
                             = (fst (position w) + tx, snd (position w) + ty))
      by reflexivity.
    assert (Hpts :
             map (fun w => in_frame (position (shift_waypoint tx ty w0))
                             (position (shift_waypoint tx ty w10))
                             (position w))
                 (map (shift_waypoint tx ty) ws)
             = map (fun w => in_frame (position w0) (position w10) (position w))
                   ws).
    { rewrite map_map. apply map_ext. intros w.
      rewrite !Hpos. apply in_frame_shift. }
    rewrite Hpts, !Hpos, in_frame_shift. reflexivity.
Qed.

Lemma cross_moment_parabola (a b c : R) (k : nat) (l : list vec) :
  Forall (fun q => snd q = parabola a b c (fst q)) l ->
  cross_moment k (map fst l) (map snd l)
  = a * moment (k + 2) (map fst l) + b * moment (k + 1) (map fst l)
    + c * moment k (map fst l).
Proof.
  unfold cross_moment, moment, sum. rewrite combine_fst_snd.
  induction 1 as [| [x y] l Hq _ IH]; cbn [map fold_right fst snd].
  - ring.
  - rewrite IH. cbn [fst snd] in Hq. rewrite Hq. unfold parabola.
    rewrite !pow_add. ring.
Qed.

(** Samples on a parabola are fitted by that parabola. *)
Lemma polyfit_parabola (a b c : R) (l : list vec) :
  Forall (fun q => snd q = parabola a b c (fst q)) l ->
  normal_det (map fst l) <> 0 ->
  polyfit rank_deficient_fit (map fst l) (map snd l) = Ok [a; b; c].
Proof.
  intros Hl Hd. unfold polyfit.
  destruct (Req_dec_T (normal_det (map fst l)) 0) as [E | _];
    [contradiction | ].
  rewrite !(cross_moment_parabola a b c _ l Hl). cbn [Nat.add].
  unfold normal_det in *.
  do 2 f_equal; [ | f_equal; [ | f_equal]]; unfold det3 in *; field; exact Hd.
Qed.

(** X10: the fit is exact on parabolas.  When the points of the path,
    seen in the path frame, lie on the parabola y = a x^2 + b x + c and
    have at least three different abscissas (the normal matrix is not
    singular), the CTE is the vertical distance of the pose from that
    parabola in the frame. *)
Theorem X10_parabolic_path_is_fitted_exactly
        (ws : list Waypoint) (pose : vec) (w0 w10 : Waypoint) (a b c : R) :
  nth_error ws 0 = Some w0 ->
  nth_error ws offset = Some w10 ->
  Forall (fun w =>
            snd (in_frame (position w0) (position w10) (position w))
            = parabola a b c
                (fst (in_frame (position w0) (position w10) (position w))))
         ws ->
  normal_det
    (map (fun w => fst (in_frame (position w0) (position w10) (position w)))
         ws) <> 0 ->
  calculate_cte rank_deficient_fit ws pose
  = Ok (snd (in_frame (position w0) (position w10) pose)
        - parabola a b c (fst (in_frame (position w0) (position w10) pose))).
Proof.
  intros H0 H10 Hon Hdet.
  rewrite (calculate_cte_frame _ ws pose w0 w10 H0 H10). cbv zeta.
  rewrite polyfit_parabola with (a := a) (b := b) (c := c).
  - cbn [bind]. now rewrite polyval3.
  - apply Forall_forall. intros q Hq.
    apply in_map_iff in Hq as [w [<- Hw]].
    exact (proj1 (Forall_forall _ ws) Hon w Hw).
  - now rewrite map_map.
Qed.

Lemma in_frame_along (o q d p : vec) (k : R) :
  fst d * fst d + snd d * snd d = 1 ->
  0 < k ->
  fst q - fst o = k * fst d ->
  snd q - snd o = k * snd d ->
  in_frame o q p
  = ((fst p - fst o) * fst d + (snd p - snd o) * snd d,
     (snd p - snd o) * fst d - (fst p - fst o) * snd d).
Proof.
  intros Hu Hk Hx Hy.
  assert (Hne : q <> o).
  { intros ->. assert (k * fst d = 0) by lra. assert (k * snd d = 0) by lra.
    assert (fst d = 0) by nra. assert (snd d = 0) by nra. nra. }
  rewrite (in_frame_polar o q p Hne). cbv zeta.
  unfold vsub. cbn [fst snd]. rewrite Hx, Hy.
  replace (k * fst d * (k * fst d) + k * snd d * (k * snd d))
    with (k * k * (fst d * fst d + snd d * snd d)) by ring.
  rewrite Hu, Rmult_1_r, sqrt_square by lra.
  f_equal; field; lra.
Qed.

(** X11: on a straight path the CTE is the signed distance of the pose
    from the line.  For waypoints at the abscissas [ts] of the line
    through [o] with unit direction [d], point 10 ahead of point 0 and
    at least three different abscissas, [calculate_cte] returns the
    cross product of [d] with the offset of the pose from [o]:
    positive to the left of the direction of travel, negative to the
    right, zero on the line, and independent of how far along the line
    the pose is. *)
Theorem X11_straight_path_cte_is_signed_distance
        (o d pose : vec) (ts : list R) (t0 t10 : R) :
  fst d * fst d + snd d * snd d = 1 ->
  nth_error ts 0 = Some t0 ->
  nth_error ts offset = Some t10 ->
  t0 < t10 ->
  normal_det (map (fun t => t - t0) ts) <> 0 ->
  calculate_cte rank_deficient_fit (map (on_line o d) ts) pose
  = Ok ((snd pose - snd o) * fst d - (fst pose - fst o) * snd d).
Proof.
  intros Hu H0 H10 Hlt Hdet.
  rewrite (calculate_cte_frame _ (map (on_line o d) ts) pose
             (on_line o d t0) (on_line o d t10)
             (map_nth_error _ _ _ H0) (map_nth_error _ _ _ H10)).
  cbv zeta.
  assert (Hframe : forall p,
             in_frame (position (on_line o d t0)) (position (on_line o d t10)) p
             = ((fst p - (fst o + t0 * fst d)) * fst d
                + (snd p - (snd o + t0 * snd d)) * snd d,
                (snd p - (snd o + t0 * snd d)) * fst d
                - (fst p - (fst o + t0 * fst d)) * snd d)).
  { intros p.
    rewrite (in_frame_along (position (on_line o d t0))
               (position (on_line o d t10)) d p (t10 - t0) Hu);
      [reflexivity | lra | | ];
      cbn [position on_line waypoint_at waypoint_x waypoint_y fst snd]; ring. }
  rewrite polyfit_flat.
  - cbn [bind]. rewrite Hframe, polyval3. cbn [fst snd]. f_equal. ring.
  - rewrite !map_map. apply Forall_forall. intros y Hy.
    apply in_map_iff in Hy as [t [<- Ht]].
    rewrite Hframe.
    cbn [position on_line waypoint_at waypoint_x waypoint_y fst snd]. ring.
  - rewrite !map_map.
    rewrite (map_ext _ (fun t => t - t0)); [exact Hdet | ].
    intros t. rewrite Hframe.
    cbn [position on_line waypoint_at waypoint_x waypoint_y fst snd].
    replace ((fst o + t * fst d - (fst o + t0 * fst d)) * fst d
             + (snd o + t * snd d - (snd o + t0 * snd d)) * snd d)
      with ((t - t0) * (fst d * fst d + snd d * snd d)) by ring.
    rewrite Hu. ring.
Qed.

End FrameAndFit.

(** ** The further properties on the sample inputs *)

Lemma X3_witness :
  run echo_control failing_fit
      (callback (dbw_enabled_cb {| data := false |}) ++ [LoopIteration])
      (node_without_path true)
  = ([publish 4 (1 / 2) 0 ++ [RateSleep]], Ok (node_without_path false))
  /\ gate (node_without_path true) = true
  /\ gate (node_without_path false) = true.
Proof.
  assert (Hrun : run echo_control failing_fit
                     (callback (dbw_enabled_cb {| data := false |})
                      ++ [LoopIteration])
                     (node_without_path true)
                 = ([publish 4 (1 / 2) 0 ++ [RateSleep]],
                    Ok (node_without_path false))) by reflexivity.
  split; [exact Hrun | split; [reflexivity | ]].
  exact (proj1 (proj2 (X3_assigned_attributes_stay_assigned
                         unit echo_control failing_fit _ _ _ _ Hrun))
               eq_refl).
Defined.

Lemma X4_witness :
  gate_reads AttrDbwEnabled = true
  /\ unset AttrDbwEnabled (init tt) = true
  /\ (forall a,
         In (Assign a)
            (callback (velocity_cb (twist_msg 3 0))
             ++ callback (twist_cb (twist_msg 4 (1 / 2)))
             ++ [LoopIteration; LoopIteration]) ->
         target a <> AttrDbwEnabled)
  /\ exists outs s',
      run echo_control failing_fit
          (callback (velocity_cb (twist_msg 3 0))
           ++ callback (twist_cb (twist_msg 4 (1 / 2)))
           ++ [LoopIteration; LoopIteration])
          (init tt)
      = (outs, Ok s')
      /\ Forall (fun out => out = []) outs
      /\ unset AttrDbwEnabled s' = true.
Proof.
  assert (H : forall a,
             In (Assign a)
                (callback (velocity_cb (twist_msg 3 0))
                 ++ callback (twist_cb (twist_msg 4 (1 / 2)))
                 ++ [LoopIteration; LoopIteration]) ->
             target a <> AttrDbwEnabled).
  { intros a Ha. cbn in Ha.
    destruct Ha as [Ha | [Ha | [Ha | [Ha | [Ha | []]]]]];
      inversion Ha; discriminate. }
  split; [reflexivity | split; [reflexivity | split; [exact H | ]]].
  exact (X4_no_output_while_a_gate_attribute_is_unset
           unit echo_control failing_fit AttrDbwEnabled _ (init tt)
           eq_refl eq_refl H).
Defined.

Lemma X5_witness :
  loop_body echo_control failing_fit (node_without_path true)
  = Ok (publish 4 (1 / 2) 0 ++ [RateSleep], node_without_path true)
  /\ gate (node_without_path true) = gate (node_without_path true)
  /\ cte_step failing_fit (node_without_path true)
     = cte_step failing_fit (node_without_path true).
Proof.
  split; [reflexivity | ].
  exact (proj2 (X5_iteration_leaves_cached_inputs
                  unit echo_control failing_fit
                  (node_without_path true) (node_without_path true)
                  (publish 4 (1 / 2) 0 ++ [RateSleep]) eq_refl)).
Defined.

Lemma X6_witness :
  gate (node_without_path true) = true
  /\ Forall (fun out =>
               exists t b st,
                 filter is_actuation out
                 = [ ThrottlePub {| throttle_enable := true;
                                    throttle_pedal_cmd_type := CMD_PERCENT;
                                    throttle_pedal_cmd := t |};
                     SteerPub {| steering_enable := true;
                                 steering_wheel_angle_cmd := st |};
                     BrakePub {| brake_enable := true;
                                 brake_pedal_cmd_type := CMD_TORQUE;
                                 brake_pedal_cmd := b |} ])
            (fst (run echo_control failing_fit
                      ([LoopIteration]
                       ++ callback (dbw_enabled_cb {| data := false |})
                       ++ callback (twist_cb (twist_msg 0 0))
                       ++ [LoopIteration])
                      (node_without_path true))).
Proof.
  split; [reflexivity | ].
  exact (X6_open_gate_never_closes
           unit echo_control failing_fit _ (node_without_path true) eq_refl).
Defined.

Lemma X7_witness :
  run echo_control failing_fit
      (callback (dbw_enabled_cb {| data := true |})
       ++ callback (velocity_cb (twist_msg 3 0))
       ++ callback (twist_cb (twist_msg 4 (1 / 2)))
       ++ [LoopIteration])
      (init tt)
  = ([publish 4 (1 / 2) 0 ++ [RateSleep]], Ok (node_without_path true))
  /\ current_ang_velocity (node_without_path true) = None.
Proof.
  assert (Hrun : run echo_control failing_fit
                     (callback (dbw_enabled_cb {| data := true |})
                      ++ callback (velocity_cb (twist_msg 3 0))
                      ++ callback (twist_cb (twist_msg 4 (1 / 2)))
                      ++ [LoopIteration])
                     (init tt)
                 = ([publish 4 (1 / 2) 0 ++ [RateSleep]],
                    Ok (node_without_path true))) by reflexivity.
  split; [exact Hrun | ].
  exact (X7_current_ang_velocity_is_never_written
           unit echo_control failing_fit _ tt _ _ Hrun).
Defined.

Lemma X8_witness :
  (3, 4) <> (0, 0)
  /\ in_frame (0, 0) (3, 4) (3, 4)
     = (sqrt ((fst (3, 4) - fst (0, 0)) * (fst (3, 4) - fst (0, 0))
              + (snd (3, 4) - snd (0, 0)) * (snd (3, 4) - snd (0, 0))), 0)
  /\ 0 < fst (in_frame (0, 0) (3, 4) (3, 4)).
Proof.
  assert (H : (3, 4) <> (0, 0)) by (intros E; inversion E; lra).
  split; [exact H | ].
  exact (proj1 (proj2 (X8_path_frame_is_oriented_along_travel
                         (0, 0) (3, 4) (1, 1)))
               H).
Defined.

Lemma straight_path_in_frame (p : Numpy.vec) :
  in_frame (position (waypoint_at 0 0)) (position (waypoint_at 10 0)) p
  = (fst p - 0, snd p - 0).
Proof.
  rewrite (in_frame_along (position (waypoint_at 0 0))
             (position (waypoint_at 10 0)) (1, 0) p 10);
    cbn [position waypoint_at waypoint_x waypoint_y fst snd];
    try lra.
  f_equal; ring.
Qed.

Lemma X10_witness :
  nth_error straight_path 0 = Some (waypoint_at 0 0)
  /\ nth_error straight_path offset = Some (waypoint_at 10 0)
  /\ calculate_cte failing_fit straight_path (5, 2)
     = Ok (snd (in_frame (position (waypoint_at 0 0))
                  (position (waypoint_at 10 0)) (5, 2))
           - parabola 0 0 0
               (fst (in_frame (position (waypoint_at 0 0))
                       (position (waypoint_at 10 0)) (5, 2)))).
Proof.
  split; [reflexivity | split; [reflexivity | ]].
  apply (X10_parabolic_path_is_fitted_exactly
           failing_fit straight_path (5, 2)
           (waypoint_at 0 0) (waypoint_at 10 0) 0 0 0 eq_refl eq_refl).
  - apply Forall_forall. intros w Hw.
    rewrite straight_path_in_frame. cbn [fst snd]. unfold parabola.
    unfold straight_path in Hw. apply in_map_iff in Hw as [i [<- _]].
    cbn [position waypoint_at waypoint_x waypoint_y snd]. ring.
  - rewrite (map_ext _ (fun w => waypoint_x w - 0)).
    + unfold straight_path. level_path_det.
    + intros w. now rewrite straight_path_in_frame.
Defined.

Lemma X11_witness :
  fst (1, 0) * fst (1, 0) + snd (1, 0) * snd (1, 0) = 1
  /\ nth_error unit_abscissas 0 = Some 0
  /\ nth_error unit_abscissas offset = Some 10
  /\ 0 < 10
  /\ Numpy.normal_det (map (fun t => t - 0) unit_abscissas) <> 0
  /\ calculate_cte failing_fit (map (on_line (0, 0) (1, 0)) unit_abscissas)
       (5, 2)
     = Ok ((snd (5, 2) - snd (0, 0)) * fst (1, 0)
           - (fst (5, 2) - fst (0, 0)) * snd (1, 0)).
Proof.
  assert (Hu : fst (1, 0) * fst (1, 0) + snd (1, 0) * snd (1, 0) = 1)
    by (cbn; lra).
  assert (Hlt : 0 < 10) by lra.
  assert (Hdet : Numpy.normal_det (map (fun t => t - 0) unit_abscissas) <> 0)
    by (unfold unit_abscissas; level_path_det).
  do 2 (split; [first [exact Hu | reflexivity] | ]).
  split; [reflexivity | split; [exact Hlt | split; [exact Hdet | ]]].
  exact (X11_straight_path_cte_is_signed_distance
           failing_fit (0, 0) (1, 0) (5, 2) unit_abscissas 0 10
           Hu eq_refl eq_refl Hlt Hdet).
Defined.
